(** * IconvStringConverter: a shallow embedding of
      cpp/include/IceUtil/IconvStringConverter.h

    The converter drives three collaborators that live outside the header:
    the iconv engine (iconv_open / iconv / iconv_close), the pthread
    thread-specific-data primitives and the growable UTF8Buffer.  The engine
    and the operating system are records of functions the development
    quantifies over; a concrete engine (ISO-8859-1 <-> UTF-8) is given at the
    end of the definitions and instantiates every assumption made on the
    abstract one.

    The release variant of the header (NDEBUG defined) is the one modelled:
    the return codes of iconv_close and of the resetting iconv call are
    discarded there.  Pointers into a buffer are offsets from its start, a
    range of memory is the list of its bytes, and [size_t] quantities are
    natural numbers (they count bytes of buffers that exist in memory).
    Every call of a collaborator leaves an event in a log, so that statements
    can speak about what a conversion asked for and in which order. *)

From Stdlib Require Import ZArith Lia.
From Stdlib.Strings Require Import Byte.
From stdpp Require Import base option list gmap strings pretty.

Open Scope Z_scope.
Open Scope nat_scope.

(** ** Error numbers and raw data *)

(** Values of <errno.h> on Linux; the header itself only names E2BIG. *)
Module Errno.
Definition E2BIG : Z := 7%Z.
Definition EBADF : Z := 9%Z.
Definition ENOMEM : Z := 12%Z.
Definition EINVAL : Z := 22%Z.
Definition EILSEQ : Z := 84%Z.
End Errno.

(** What [iconv] returns: a count of irreversible conversions, or
    [size_t(-1)] together with the value [errno] has afterwards. *)
Inductive iconv_status : Type :=
| IconvCount (n : nat)
| IconvFail (errno : Z).

#[global] Instance iconv_status_eq_dec : EqDecision iconv_status.
Proof. solve_decision. Defined.

(** One call of the engine on an input window and an output budget: how many
    input bytes it took, the bytes it stored at the output cursor, the shift
    state it is left in and its return value. *)
Record iconv_result (shift : Type) : Type := IconvResult {
  consumed : nat;
  produced : list byte;
  shift_after : shift;
  status : iconv_status
}.
Arguments IconvResult {shift} _ _ _ _.
Arguments consumed {shift} _.
Arguments produced {shift} _.
Arguments shift_after {shift} _.
Arguments status {shift} _.

(** The conversion engine and the C library, as the header uses them.
    [iconv_supported tocode fromcode] tells whether [iconv_open] yields a
    descriptor; [iconv_convert tocode fromcode s inbuf outbytesleft] is one
    conversion call; [strerror] is the C library's table of messages. *)
Record Engine : Type := {
  shift : Type;
  shift_initial : shift;
  iconv_supported : string -> string -> bool;
  iconv_convert : string -> string -> shift -> list byte -> nat -> iconv_result shift;
  strerror : Z -> string
}.

(** Return codes of the pthread calls: [pthread_key_create] and the n-th
    [pthread_setspecific] of the process. *)
Record Pthread : Type := {
  key_create_rs : Z;
  setspecific_rs : nat -> Z
}.

(** ** Exceptions *)

Inductive exn : Type :=
| IllegalConversionException (reason : string)
| IconvInitializationException (reason : string)
| ThreadSyscallException (rs : Z).

#[global] Instance exn_eq_dec : EqDecision exn.
Proof. solve_decision. Defined.

(** ** Observable events *)

Inductive event : Type :=
| EvOpen (tocode fromcode : string) (cd : Z)
| EvClose (cd : Z)
| EvReset (cd : Z)
| EvSetSpecific (thread : nat) (pair : Z * Z) (rs : Z)
| EvGetMoreBytes (howMany : nat) (firstUnused : option nat) (granted : nat)
| EvResize (n : nat)
| EvIconv (cd : Z) (inbuf : list byte) (outbuf outbytesleft : nat)
          (consumed : nat) (produced : list byte) (st : iconv_status).

(** ** The world the converter runs in *)

Section World.
Context (E : Engine).

(** An open conversion descriptor. *)
Record descriptor : Type := Descriptor {
  tocode : string;
  fromcode : string;
  state : shift E
}.

(** Open descriptors by handle, the next handle [iconv_open] hands out, the
    value of [pthread_getspecific(_key)] on each thread (a heap-allocated
    pair of handles, absent when null), the number of
    [pthread_setspecific] calls so far and the events, latest first. *)
Record World : Type := mkWorld {
  descriptors : gmap Z descriptor;
  next_cd : Z;
  specific : gmap nat (Z * Z);
  tick : nat;
  log : list event
}.

Definition emit (ev : event) (w : World) : World :=
  mkWorld (descriptors w) (next_cd w) (specific w) (tick w) (ev :: log w).

Definition set_descriptors (d : gmap Z descriptor) (w : World) : World :=
  mkWorld d (next_cd w) (specific w) (tick w) (log w).
End World.

Arguments Descriptor {E} _ _ _.
Arguments tocode {E} _.
Arguments fromcode {E} _.
Arguments state {E} _.
Arguments mkWorld {E} _ _ _ _ _.
Arguments descriptors {E} _.
Arguments next_cd {E} _.
Arguments specific {E} _.
Arguments tick {E} _.
Arguments log {E} _.
Arguments emit {E} _ _.
Arguments set_descriptors {E} _ _.

(** A process with no descriptor open and no event yet. *)
Definition empty_world {E : Engine} : World E := mkWorld ∅ 0 ∅ 0 [].

(** ** A state and exception monad over the world *)

Inductive outcome (A : Type) : Type :=
| Ret (a : A)
| Throw (e : exn)
| OutOfFuel.
Arguments Ret {A} _.
Arguments Throw {A} _.
Arguments OutOfFuel {A}.

Definition M (E : Engine) (A : Type) : Type := World E -> outcome A * World E.

Definition ret {E A} (a : A) : M E A := fun w => (Ret a, w).
Definition throw {E A} (e : exn) : M E A := fun w => (Throw e, w).
Definition out_of_fuel {E A} : M E A := fun w => (OutOfFuel, w).

Definition bind {E A B} (m : M E A) (k : A -> M E B) : M E B :=
  fun w =>
    match m w with
    | (Ret a, w') => k a w'
    | (Throw e, w') => (Throw e, w')
    | (OutOfFuel, w') => (OutOfFuel, w')
    end.

(** Add an event to the log. *)
Definition record {E} (ev : event) : M E unit := fun w => (Ret tt, emit ev w).

(** [try m catch h]: [h] sees every exception [m] throws and may rethrow. *)
Definition try_catch {E A} (m : M E A) (h : exn -> M E A) : M E A :=
  fun w =>
    match m w with
    | (Throw e, w') => h e w'
    | r => r
    end.

Declare Scope conv_scope.
Delimit Scope conv_scope with conv.
Notation "x <- m ;; k" := (bind m (fun x => k))
  (at level 100, m at next level, right associativity) : conv_scope.
Notation "m ;;; k" := (bind m (fun _ => k))
  (at level 100, right associativity) : conv_scope.

(** ** The primitives of the engine and of pthread *)

Section Primitives.
Context (E : Engine) (P : Pthread).
Open Scope conv_scope.

(** The failure value [iconv_t(-1)]. *)
Definition iconv_t_invalid : Z := (-1)%Z.

Definition iconv_open (tocode fromcode : string) : M E Z :=
  fun w =>
    if iconv_supported E tocode fromcode then
      let cd := next_cd w in
      (Ret cd,
       mkWorld (<[cd := Descriptor tocode fromcode (shift_initial E)]> (descriptors w))
               (cd + 1)%Z (specific w) (tick w)
               (EvOpen tocode fromcode cd :: log w))
    else (Ret iconv_t_invalid, w).

Definition iconv_close (cd : Z) : M E Z :=
  fun w =>
    match descriptors w !! cd with
    | Some _ => (Ret 0%Z, emit (EvClose cd) (set_descriptors (delete cd (descriptors w)) w))
    | None => (Ret (-1)%Z, w)
    end.

(** [iconv(cd, 0, 0, 0, 0)]: put the descriptor in its initial shift state. *)
Definition iconv_reset (cd : Z) : M E Z :=
  fun w =>
    match descriptors w !! cd with
    | Some d =>
        (Ret 0%Z,
         emit (EvReset cd)
              (set_descriptors
                 (<[cd := Descriptor (tocode d) (fromcode d) (shift_initial E)]> (descriptors w)) w))
    | None => (Ret (-1)%Z, w)
    end.

(** What the engine answers to a conversion call on [cd]: it is run on the
    descriptor's codes and shift state; a handle that is not open fails with
    EBADF and converts nothing. *)
Definition call_engine (w : World E) (cd : Z) (inbuf : list byte) (outbytesleft : nat)
  : iconv_result (shift E) :=
  match descriptors w !! cd with
  | Some d => iconv_convert E (tocode d) (fromcode d) (state d) inbuf outbytesleft
  | None => IconvResult 0 [] (shift_initial E) (IconvFail Errno.EBADF)
  end.

(** [iconv(cd, &inbuf, &inbytesleft, &outbuf, &outbytesleft)] with the
    input range as a list and the output cursor as an offset. *)
Definition iconv (cd : Z) (inbuf : list byte) (outbuf outbytesleft : nat)
  : M E (iconv_result (shift E)) :=
  fun w =>
    let r := call_engine w cd inbuf outbytesleft in
    (Ret r,
     emit (EvIconv cd inbuf outbuf outbytesleft (consumed r) (produced r) (status r))
          (set_descriptors
             (alter (λ d, Descriptor (tocode d) (fromcode d) (shift_after r)) cd (descriptors w))
             w)).

Definition pthread_getspecific (thread : nat) : M E (option (Z * Z)) :=
  fun w => (Ret (specific w !! thread), w).

Definition pthread_setspecific (thread : nat) (val : Z * Z) : M E Z :=
  fun w =>
    let rs := setspecific_rs P (tick w) in
    (Ret rs,
     mkWorld (descriptors w) (next_cd w)
             (if decide (rs = 0%Z) then <[thread := val]> (specific w) else specific w)
             (S (tick w))
             (EvSetSpecific thread val rs :: log w)).

(** A fresh key has a null value on every thread. *)
Definition pthread_key_create : M E Z :=
  fun w =>
    let rs := key_create_rs P in
    (Ret rs,
     if decide (rs = 0%Z)
     then mkWorld (descriptors w) (next_cd w) ∅ (tick w) (log w)
     else w).
End Primitives.

(** ** Storage helpers *)

(** [length l] becomes [n], cut or padded with zero bytes: what [realloc] and
    [basic_string::resize] do to the bytes of a buffer. *)
Definition resize_bytes (n : nat) (l : list byte) : list byte :=
  take n l ++ replicate (n - length l) x00.

(** Store [p] at offset [o] of [l]. *)
Definition write_at (o : nat) (p l : list byte) : list byte :=
  take o l ++ p ++ drop (o + length p) l.

(** Modelled from the spec: the growable output buffer (IceUtil::UTF8Buffer,
    declared in IceUtil/StringConverter.h), which can be asked for additional
    contiguous capacity on demand, keeps the bytes written before the cursor
    and returns a possibly relocated write cursor.  The buffer is its bytes;
    a cursor is an offset from its start, the null cursor is [None]. *)
Definition getMoreBytes (howMany : nat) (firstUnused : option nat) (buf : list byte)
  : nat * list byte :=
  let offset := default 0 firstUnused in
  (offset, resize_bytes (offset + howMany) buf).

(** ** The converter *)

Section Converter.
Context (E : Engine) (P : Pthread).
(** [sizeof(charT)]. *)
Context (sizeof_charT : nat).
Open Scope conv_scope.
Open Scope string_scope.

Record IconvStringConverter : Type := { _internalCode : string }.

Definition externalCode : string := "UTF-8".

(** A [basic_string<charT>] is the bytes of its characters,
    [sizeof(charT)] each. *)
Definition size (target : list byte) : nat := length target / sizeof_charT.
Definition resize (n : nat) (target : list byte) : list byte :=
  resize_bytes (n * sizeof_charT) target.

Definition createDescriptors (this : IconvStringConverter) : M E (Z * Z) :=
  first <- iconv_open E (_internalCode this) externalCode ;;
  if decide (first = iconv_t_invalid) then
    throw (IllegalConversionException
             ("iconv cannot convert from " +:+ externalCode +:+ " to " +:+ _internalCode this))
  else
    second <- iconv_open E externalCode (_internalCode this) ;;
    if decide (second = iconv_t_invalid) then
      iconv_close E first ;;;
      throw (IllegalConversionException
               ("iconv cannot convert from " +:+ _internalCode this +:+ " to " +:+ externalCode))
    else ret (first, second).

Definition close (cdp : Z * Z) : M E unit :=
  iconv_close E cdp.1 ;;;
  iconv_close E cdp.2 ;;;
  ret tt.

Definition cleanupKey (val : Z * Z) : M E unit := close val.

(** The constructor. *)
Definition IconvStringConverter_new (internalCode : string) : M E IconvStringConverter :=
  let this := {| _internalCode := internalCode |} in
  try_catch (cdp <- createDescriptors this ;; close cdp)
            (fun sce =>
               match sce with
               | IllegalConversionException reason => throw (IconvInitializationException reason)
               | _ => throw sce
               end) ;;;
  rs <- pthread_key_create E P ;;
  if decide (rs ≠ 0%Z) then throw (ThreadSyscallException rs)
  else ret this.

Definition getDescriptors (this : IconvStringConverter) (thread : nat) : M E (Z * Z) :=
  val <- pthread_getspecific E thread ;;
  match val with
  | Some cdp => ret cdp
  | None =>
      cdp <- createDescriptors this ;;
      rs <- pthread_setspecific E P thread cdp ;;
      if decide (rs ≠ 0%Z) then throw (ThreadSyscallException rs)
      else ret cdp
  end.

(** The thread-local destruction hook, run by pthread when a thread that
    holds a value for the key ends: the value is reset to null and
    [cleanupKey] is called on the old one. *)
Definition thread_exit (thread : nat) : M E unit :=
  val <- pthread_getspecific E thread ;;
  match val with
  | Some cdp =>
      (fun w => (Ret tt, mkWorld (descriptors w) (next_cd w) (delete thread (specific w))
                                 (tick w) (log w))) ;;;
      cleanupKey cdp
  | None => ret tt
  end.

Definition error_text (errno : Z) : string :=
  if decide (errno ≠ 0%Z) then strerror E errno else "Unknown error".

(** The do-while loop of [toUTF8]; [fuel] bounds the number of iterations
    the model follows. *)
Fixpoint toUTF8_loop (fuel : nat) (cd : Z) (inbuf : list byte) (outbuf : option nat)
         (buf : list byte) : M E (nat * list byte) :=
  match fuel with
  | 0 => out_of_fuel
  | S fuel' =>
      let inbytesleft := length inbuf in
      let howMany := inbytesleft `max` 4 in
      let (granted, buf1) := getMoreBytes howMany outbuf buf in
      record (EvGetMoreBytes howMany outbuf granted) ;;;
      r <- iconv E cd inbuf granted howMany ;;
      let buf2 := write_at granted (produced r) buf1 in
      let outbuf2 := granted + length (produced r) in
      match status r with
      | IconvFail errno =>
          if decide (errno = Errno.E2BIG) then
            toUTF8_loop fuel' cd (drop (consumed r) inbuf) (Some outbuf2) buf2
          else throw (IllegalConversionException (error_text errno))
      | IconvCount _ => ret (outbuf2, buf2)
      end
  end.

(** [toUTF8(sourceStart, sourceEnd, buf)]: [source] holds the bytes of the
    characters of the range.  Returns the cursor and the buffer. *)
Definition toUTF8 (fuel : nat) (this : IconvStringConverter) (thread : nat)
           (source : list byte) (buf : list byte) : M E (nat * list byte) :=
  cdp <- getDescriptors this thread ;;
  let cd := cdp.2 in
  iconv_reset E cd ;;;
  let inbytesleft := (length source / sizeof_charT) * sizeof_charT in
  toUTF8_loop fuel cd (take inbytesleft source) None buf.

(** The do-while loop of [fromUTF8]. *)
Fixpoint fromUTF8_loop (fuel : nat) (cd : Z) (inbuf : list byte) (outbuf : option nat)
         (outbytesleft : nat) (target : list byte) : M E (nat * list byte) :=
  match fuel with
  | 0 => out_of_fuel
  | S fuel' =>
      let inbytesleft := length inbuf in
      let bytesused := match outbuf with Some o => o | None => 0 end in
      let increment := inbytesleft `max` 4 in
      let newsize := size target + increment in
      let target1 := resize newsize target in
      record (EvResize newsize) ;;;
      let outbuf1 := bytesused in
      let outbytesleft1 := outbytesleft + increment * sizeof_charT in
      r <- iconv E cd inbuf outbuf1 outbytesleft1 ;;
      let target2 := write_at outbuf1 (produced r) target1 in
      let outbuf2 := outbuf1 + length (produced r) in
      let outbytesleft2 := outbytesleft1 - length (produced r) in
      match status r with
      | IconvFail errno =>
          if decide (errno = Errno.E2BIG) then
            fromUTF8_loop fuel' cd (drop (consumed r) inbuf) (Some outbuf2) outbytesleft2 target2
          else throw (IllegalConversionException (error_text errno))
      | IconvCount _ => ret (outbytesleft2, target2)
      end
  end.

(** [fromUTF8(sourceStart, sourceEnd, target)].  Returns the target. *)
Definition fromUTF8 (fuel : nat) (this : IconvStringConverter) (thread : nat)
           (source : list byte) (target : list byte) : M E (list byte) :=
  cdp <- getDescriptors this thread ;;
  let cd := cdp.1 in
  iconv_reset E cd ;;;
  r <- fromUTF8_loop fuel cd source None 0 target ;;
  let newsize := size r.2 - r.1 / sizeof_charT in
  record (EvResize newsize) ;;;
  ret (resize newsize r.2).
End Converter.

(** ** Vocabulary of the statements *)

Section Specification.
Context (E : Engine) (P : Pthread) (sizeof_charT : nat).

(** The events a call added to the log, oldest first. *)
Definition new_events (w w' : World E) : list event :=
  rev (take (length (log w') - length (log w)) (log w')).

Definition is_open (w : World E) (cd : Z) (tocode fromcode : string) : Prop :=
  ∃ s, descriptors w !! cd = Some (Descriptor tocode fromcode s).

(** Handles are handed out in increasing order from a non-negative counter,
    so an open handle is never [iconv_t(-1)] and the next one is not open. *)
Definition handles_fresh (w : World E) : Prop :=
  (0 ≤ next_cd w)%Z ∧ ∀ cd, is_Some (descriptors w !! cd) → (0 ≤ cd < next_cd w)%Z.

(** The engine opens both directions for the converter's internal code. *)
Definition validated (this : IconvStringConverter) : Prop :=
  iconv_supported E (_internalCode this) externalCode = true ∧
  iconv_supported E externalCode (_internalCode this) = true.

(** The state of the per-thread registry: every registered pair consists of
    two distinct open descriptors, the first converting UTF-8 to the internal
    code and the second the internal code to UTF-8, and no descriptor belongs
    to the pairs of two threads. *)
Record registry_ok (this : IconvStringConverter) (w : World E) : Prop := {
  reg_fresh : handles_fresh w;
  reg_pairs : ∀ t a b, specific w !! t = Some (a, b) →
    a ≠ b ∧ is_open w a (_internalCode this) externalCode
          ∧ is_open w b externalCode (_internalCode this);
  reg_owned : ∀ t u p q, t ≠ u → specific w !! t = Some p → specific w !! u = Some q →
    p.1 ≠ q.1 ∧ p.1 ≠ q.2 ∧ p.2 ≠ q.1 ∧ p.2 ≠ q.2
}.

(** The world after [createDescriptors] opened both directions. *)
Definition opened_pair (this : IconvStringConverter) (w : World E) : World E :=
  mkWorld
    (<[(next_cd w + 1)%Z := Descriptor externalCode (_internalCode this) (shift_initial E)]>
       (<[next_cd w := Descriptor (_internalCode this) externalCode (shift_initial E)]>
          (descriptors w)))
    (next_cd w + 1 + 1)%Z (specific w) (tick w)
    (EvOpen externalCode (_internalCode this) (next_cd w + 1)
       :: EvOpen (_internalCode this) externalCode (next_cd w) :: log w).

(** The calls a program makes on a constructed converter, and the end of a
    thread. *)
Inductive call : Type :=
| CallGetDescriptors (thread : nat)
| CallToUTF8 (fuel thread : nat) (source buf : list byte)
| CallFromUTF8 (fuel thread : nat) (source target : list byte)
| CallThreadExit (thread : nat).

Definition run_call (this : IconvStringConverter) (c : call) (w : World E) : World E :=
  match c with
  | CallGetDescriptors t => (getDescriptors E P this t w).2
  | CallToUTF8 fuel t source buf => (toUTF8 E P sizeof_charT fuel this t source buf w).2
  | CallFromUTF8 fuel t source target =>
      (fromUTF8 E P sizeof_charT fuel this t source target w).2
  | CallThreadExit t => (thread_exit E t w).2
  end.

(** The worlds a converter can be in: the one its constructor leaves, and
    the ones calls lead to from there. *)
Inductive reachable (this : IconvStringConverter) : World E → Prop :=
| reachable_new w0 w :
    handles_fresh w0 →
    IconvStringConverter_new E P (_internalCode this) w0 = (Ret this, w) →
    reachable this w
| reachable_call w c :
    reachable this w → reachable this (run_call this c w).

(** *** Assumptions on the engine *)

(** A call takes no more input than it is given and stores no more output
    than it has room for. *)
Definition engine_bounded : Prop :=
  ∀ tocode fromcode s inbuf n,
    let r := iconv_convert E tocode fromcode s inbuf n in
    consumed r ≤ length inbuf ∧ length (produced r) ≤ n.


(** On an empty input a freshly reset descriptor completes at once and
    stores nothing. *)
Definition engine_empty (tocode fromcode : string) : Prop :=
  ∀ n,
    let r := iconv_convert E tocode fromcode (shift_initial E) [] n in
    produced r = [] ∧ ∃ k, status r = IconvCount k.


(** *** Reading the log *)

Definition is_loop_event (ev : event) : bool :=
  match ev with
  | EvGetMoreBytes _ _ _ | EvIconv _ _ _ _ _ _ _ | EvResize _ => true
  | _ => false
  end.

Definition loop_events (evs : list event) : list event :=
  filter (λ ev, is_loop_event ev) evs.

Definition produced_by (ev : event) : list byte :=
  match ev with
  | EvIconv _ _ _ _ _ p _ => p
  | _ => []
  end.

(** The bytes the engine stored during a run, in order. *)
Definition decoded (evs : list event) : list byte := concat (map produced_by evs).



(** What the engine returned at each conversion call of a run, in order. *)
Definition status_of (ev : event) : option iconv_status :=
  match ev with
  | EvIconv _ _ _ _ _ _ st => Some st
  | _ => None
  end.

Definition statuses (evs : list event) : list iconv_status := omap status_of evs.

(** How a retry loop ends, read off the engine's return values: every call
    but the last reported a shortfall; the loop returns when the last call
    converted, throws IllegalConversionException with the text for the error
    number when it failed for another reason, and a run whose calls all
    reported a shortfall is one the model cut for lack of fuel. *)
Inductive verdict {A : Type} : list iconv_status → outcome A → Prop :=
| verdict_cut : verdict [] OutOfFuel
| verdict_converted n a : verdict [IconvCount n] (Ret a)
| verdict_failed errno :
    errno ≠ Errno.E2BIG →
    verdict [IconvFail errno] (Throw (IllegalConversionException (error_text E errno)))
| verdict_retry sts r :
    verdict sts r → verdict (IconvFail Errno.E2BIG :: sts) r.

(** Two worlds with the same handles open for the same codes, the same
    registry and the same handle counter; shift states may differ. *)
Definition same_sessions (w w' : World E) : Prop :=
  next_cd w' = next_cd w ∧ specific w' = specific w ∧
  ∀ cd tocode fromcode, is_open w' cd tocode fromcode ↔ is_open w cd tocode fromcode.

(** Events of the session pool only: none is a request to the buffer, a
    resize or a conversion call. *)
Definition pool_only (evs : list event) : Prop :=
  Forall (λ ev, is_loop_event ev = false) evs.

(** A computation that ends within the model's fuel and logs events of the
    session pool only. *)
Definition quiet {A : Type} (m : M E A) : Prop :=
  ∀ w, (m w).1 ≠ OutOfFuel ∧ ∃ evs, log (m w).2 = rev evs ++ log w ∧ pool_only evs.

(** The shape of the events of the retry loop of [toUTF8] that starts with
    [inbuf] left to convert and the write cursor at [outbuf]: each iteration
    asks the buffer for [max(inbytesleft, 4)] bytes from the cursor and runs
    the engine on the input left, with that budget, where the buffer granted
    room; after a shortfall the next iteration starts from the input and the
    cursor the engine left.  The list may stop after any iteration (a model
    run that is out of fuel). *)
Inductive retry_trace (cd : Z) : list byte → option nat → list event → Prop :=
| retry_cut inbuf outbuf : retry_trace cd inbuf outbuf []
| retry_stop inbuf outbuf granted c p st :
    st ≠ IconvFail Errno.E2BIG →
    retry_trace cd inbuf outbuf
      [EvGetMoreBytes (length inbuf `max` 4) outbuf granted;
       EvIconv cd inbuf granted (length inbuf `max` 4) c p st]
| retry_again inbuf outbuf granted c p rest :
    retry_trace cd (drop c inbuf) (Some (granted + length p)) rest →
    retry_trace cd inbuf outbuf
      (EvGetMoreBytes (length inbuf `max` 4) outbuf granted ::
       EvIconv cd inbuf granted (length inbuf `max` 4) c p (IconvFail Errno.E2BIG) :: rest).

End Specification.

Arguments new_events {E} _ _ : simpl never.
Arguments is_open {E} _ _ _ _.
Arguments handles_fresh {E} _.
Arguments opened_pair {E} _ _.
Arguments same_sessions {E} _ _.
Arguments quiet {E A} _.
Arguments verdict E {A} _ _.

Arguments _internalCode _ : assert.
Arguments externalCode : simpl never.

(** ** The end of a converter *)

Section Lifetime.
Context (E : Engine) (P : Pthread) (sizeof_charT : nat).
Open Scope conv_scope.

(** [pthread_key_delete(_key)] on a valid key: the key is gone, and with it
    the value every thread held for it; pthread runs no destructor for these
    values. *)
Definition pthread_key_delete : M E Z :=
  fun w => (Ret 0%Z, mkWorld (descriptors w) (next_cd w) ∅ (tick w) (log w)).

(** The destructor, run by [thread].  The result of [pthread_key_delete] is
    looked at by an assertion only. *)
Definition IconvStringConverter_delete (thread : nat) : M E unit :=
  val <- pthread_getspecific E thread ;;
  match val with
  | Some cdp => cleanupKey E cdp
  | None => ret tt
  end ;;;
  pthread_key_delete ;;;
  ret tt.

(** An open descriptor that no thread's registered pair holds. *)
Definition stray (w : World E) (cd : Z) : Prop :=
  is_Some (descriptors w !! cd)
  ∧ ∀ t p, specific w !! t = Some p → cd ≠ p.1 ∧ cd ≠ p.2.

(** The handles from [base] on are the converter's: the handle counter has
    not gone back, every registered pair consists of such handles, and each
    of them that is open is in a registered pair. *)
Definition owns_from (base : Z) (w : World E) : Prop :=
  (base ≤ next_cd w)%Z
  ∧ (∀ t p, specific w !! t = Some p → (base ≤ p.1)%Z ∧ (base ≤ p.2)%Z)
  ∧ (∀ cd, (base ≤ cd)%Z → is_Some (descriptors w !! cd) →
       ∃ t p, specific w !! t = Some p ∧ (cd = p.1 ∨ cd = p.2)).

(** The thread that makes a call. *)
Definition call_thread (c : call) : nat :=
  match c with
  | CallGetDescriptors t | CallToUTF8 _ t _ _ | CallFromUTF8 _ t _ _ | CallThreadExit t => t
  end.

(** The world a sequence of calls leads to. *)
Definition run_calls (this : IconvStringConverter) (cs : list call) (w : World E) : World E :=
  foldl (λ w c, run_call E P sizeof_charT this c w) w cs.

End Lifetime.

Arguments stray {E} _ _.
Arguments owns_from {E} _ _.

(** ** Runs of the retry loops *)

Section Runs.
Context (E : Engine) (sizeof_charT : nat).

(** A computation's way of ending, without what it returns. *)
Definition ending {A : Type} (r : outcome A) : outcome unit :=
  match r with
  | Ret _ => Ret tt
  | Throw e => Throw e
  | OutOfFuel => OutOfFuel
  end.

(** The run of the retry loop of [toUTF8] on the descriptor [cd], which
    converts from [fromcode] to [tocode]: with [fuel] iterations for the
    model to follow, the descriptor in shift state [s], [inbuf] left to
    convert and the write cursor at [outbuf], the loop logs these events and
    ends this way.  Every iteration asks the buffer for [max(inbytesleft, 4)]
    bytes from the cursor and runs the engine on the input left, with that
    budget, where the buffer granted room; the events record what the engine
    answered.  The loop returns the cursor behind the bytes stored when the
    engine converted, throws IllegalConversionException with the text for the
    error number when it failed for a reason other than E2BIG, and after
    E2BIG goes on from the shift state, the input and the cursor the engine
    left.  Only a run with no iteration left to follow is cut. *)
Inductive retry_run (tocode fromcode : string) (cd : Z) :
  nat → shift E → list byte → option nat → list event → outcome (nat * list byte) → Prop :=
| retry_run_cut s inbuf outbuf :
    retry_run tocode fromcode cd 0 s inbuf outbuf [] OutOfFuel
| retry_run_converted fuel s inbuf outbuf k buf' :
    let howMany := length inbuf `max` 4 in
    let granted := default 0 outbuf in
    let r := iconv_convert E tocode fromcode s inbuf howMany in
    status r = IconvCount k →
    retry_run tocode fromcode cd (S fuel) s inbuf outbuf
      [EvGetMoreBytes howMany outbuf granted;
       EvIconv cd inbuf granted howMany (consumed r) (produced r) (IconvCount k)]
      (Ret (granted + length (produced r), buf'))
| retry_run_failed fuel s inbuf outbuf errno :
    let howMany := length inbuf `max` 4 in
    let granted := default 0 outbuf in
    let r := iconv_convert E tocode fromcode s inbuf howMany in
    status r = IconvFail errno → errno ≠ Errno.E2BIG →
    retry_run tocode fromcode cd (S fuel) s inbuf outbuf
      [EvGetMoreBytes howMany outbuf granted;
       EvIconv cd inbuf granted howMany (consumed r) (produced r) (IconvFail errno)]
      (Throw (IllegalConversionException (error_text E errno)))
| retry_run_again fuel s inbuf outbuf rest res :
    let howMany := length inbuf `max` 4 in
    let granted := default 0 outbuf in
    let r := iconv_convert E tocode fromcode s inbuf howMany in
    status r = IconvFail Errno.E2BIG →
    retry_run tocode fromcode cd fuel (shift_after r) (drop (consumed r) inbuf)
              (Some (granted + length (produced r))) rest res →
    retry_run tocode fromcode cd (S fuel) s inbuf outbuf
      (EvGetMoreBytes howMany outbuf granted
         :: EvIconv cd inbuf granted howMany (consumed r) (produced r) (IconvFail Errno.E2BIG)
         :: rest)
      res.

(** The room the loops offer the engine in an iteration that starts with
    [inbuf] left to convert and [unspent] bytes of the previous budget:
    [toUTF8] offers a fresh window every time, [fromUTF8] adds to what is
    unspent. *)
Definition toUTF8_window (unspent : nat) (inbuf : list byte) : nat :=
  length inbuf `max` 4.
Definition fromUTF8_window (unspent : nat) (inbuf : list byte) : nat :=
  unspent + (length inbuf `max` 4) * sizeof_charT.

(** How a conversion ends, as the engine decides: the engine, converting from
    [fromcode] to [tocode], is in shift state [s] and is run on [inbuf] with
    the room [window] offers.  When it converts, the conversion returns; when
    it fails with an error number other than E2BIG, the conversion throws
    IllegalConversionException with [strerror(errno)], or with the text
    Unknown error when the number is zero; when it fails with E2BIG nothing
    reaches the caller: the engine is run again from where it stopped.  Only
    a run with no iteration left for the model to follow is cut. *)
Inductive ends_as (tocode fromcode : string) (window : nat → list byte → nat) :
  nat → shift E → list byte → nat → outcome unit → Prop :=
| ends_cut s inbuf unspent :
    ends_as tocode fromcode window 0 s inbuf unspent OutOfFuel
| ends_returning fuel s inbuf unspent k :
    status (iconv_convert E tocode fromcode s inbuf (window unspent inbuf)) = IconvCount k →
    ends_as tocode fromcode window (S fuel) s inbuf unspent (Ret tt)
| ends_throwing fuel s inbuf unspent errno :
    status (iconv_convert E tocode fromcode s inbuf (window unspent inbuf)) = IconvFail errno →
    errno ≠ Errno.E2BIG →
    ends_as tocode fromcode window (S fuel) s inbuf unspent
      (Throw (IllegalConversionException
                (if decide (errno ≠ 0%Z) then strerror E errno else "Unknown error")))
| ends_retrying fuel s inbuf unspent res :
    let r := iconv_convert E tocode fromcode s inbuf (window unspent inbuf) in
    status r = IconvFail Errno.E2BIG →
    ends_as tocode fromcode window fuel (shift_after r) (drop (consumed r) inbuf)
            (window unspent inbuf - length (produced r)) res →
    ends_as tocode fromcode window (S fuel) s inbuf unspent res.

(** The run of the retry loop of [fromUTF8] on the descriptor [cd]: with
    [fuel] iterations for the model to follow, the descriptor in shift state
    [s], [inbuf] left to convert, the write cursor [used] bytes into the
    destination, [left] bytes of output budget unspent and a destination of
    [chars] characters, the loop logs these events and ends this way.  Every
    iteration grows the destination by [max(inbytesleft, 4)] characters and
    runs the engine on the input left, at the cursor, with the unspent budget
    plus the bytes of the increment; cursor plus budget stay within the bytes
    of the grown destination.  When the engine converts, the loop ends with
    the size of the destination and the budget left unspent; when it fails
    for a reason other than E2BIG, it throws; after E2BIG it goes on from the
    shift state, the input, the cursor and the budget the engine left. *)
Inductive growth_run (tocode fromcode : string) (cd : Z) :
  nat → shift E → list byte → nat → nat → nat → list event → outcome (nat * nat) → Prop :=
| growth_run_cut s inbuf used left chars :
    growth_run tocode fromcode cd 0 s inbuf used left chars [] OutOfFuel
| growth_run_converted fuel s inbuf used left chars k :
    let increment := length inbuf `max` 4 in
    let budget := left + increment * sizeof_charT in
    let r := iconv_convert E tocode fromcode s inbuf budget in
    status r = IconvCount k →
    used + budget ≤ (chars + increment) * sizeof_charT →
    growth_run tocode fromcode cd (S fuel) s inbuf used left chars
      [EvResize (chars + increment);
       EvIconv cd inbuf used budget (consumed r) (produced r) (IconvCount k)]
      (Ret (chars + increment, budget - length (produced r)))
| growth_run_failed fuel s inbuf used left chars errno :
    let increment := length inbuf `max` 4 in
    let budget := left + increment * sizeof_charT in
    let r := iconv_convert E tocode fromcode s inbuf budget in
    status r = IconvFail errno → errno ≠ Errno.E2BIG →
    used + budget ≤ (chars + increment) * sizeof_charT →
    growth_run tocode fromcode cd (S fuel) s inbuf used left chars
      [EvResize (chars + increment);
       EvIconv cd inbuf used budget (consumed r) (produced r) (IconvFail errno)]
      (Throw (IllegalConversionException (error_text E errno)))
| growth_run_again fuel s inbuf used left chars rest res :
    let increment := length inbuf `max` 4 in
    let budget := left + increment * sizeof_charT in
    let r := iconv_convert E tocode fromcode s inbuf budget in
    status r = IconvFail Errno.E2BIG →
    used + budget ≤ (chars + increment) * sizeof_charT →
    growth_run tocode fromcode cd fuel (shift_after r) (drop (consumed r) inbuf)
               (used + length (produced r)) (budget - length (produced r))
               (chars + increment) rest res →
    growth_run tocode fromcode cd (S fuel) s inbuf used left chars
      (EvResize (chars + increment)
         :: EvIconv cd inbuf used budget (consumed r) (produced r) (IconvFail Errno.E2BIG)
         :: rest)
      res.



End Runs.

(** ** A concrete engine: ISO-8859-1 <-> UTF-8

    Every ISO-8859-1 character is one byte; its UTF-8 form is one byte below
    128 and two bytes (lead 0xC2 or 0xC3, then a continuation byte) from 128
    on.  The engine converts character by character and stops with E2BIG at
    the first character whose output does not fit, with EILSEQ at a byte that
    starts no character of the repertoire and with EINVAL at a sequence the
    input cuts short. *)
Module Latin1.

Definition code : string := "ISO-8859-1".

Definition byte_of_N (n : N) : byte := default x00 (Byte.of_N n).

Definition encode_char (b : byte) : list byte :=
  let n := Byte.to_N b in
  if (n <? 128)%N then [b]
  else [byte_of_N (192 + n / 64); byte_of_N (128 + n mod 64)].

Definition decode_char (lead cont : byte) : byte :=
  byte_of_N (64 * (Byte.to_N lead - 192) + (Byte.to_N cont - 128)).

Definition stop (errno : Z) : iconv_result unit :=
  IconvResult 0 [] tt (IconvFail errno).

Definition after (taken : nat) (out : list byte) (r : iconv_result unit) : iconv_result unit :=
  IconvResult (taken + consumed r) (out ++ produced r) tt (status r).

Fixpoint to_utf8 (inbuf : list byte) (outbytesleft : nat) : iconv_result unit :=
  match inbuf with
  | [] => IconvResult 0 [] tt (IconvCount 0)
  | b :: rest =>
      let out := encode_char b in
      if decide (length out ≤ outbytesleft)
      then after 1 out (to_utf8 rest (outbytesleft - length out))
      else stop Errno.E2BIG
  end.

Fixpoint from_utf8 (inbuf : list byte) (outbytesleft : nat) : iconv_result unit :=
  match inbuf with
  | [] => IconvResult 0 [] tt (IconvCount 0)
  | b :: rest =>
      let n := Byte.to_N b in
      if (n <? 128)%N then
        if decide (1 ≤ outbytesleft)
        then after 1 [b] (from_utf8 rest (outbytesleft - 1))
        else stop Errno.E2BIG
      else if ((n =? 194) || (n =? 195))%N then
        match rest with
        | [] => stop Errno.EINVAL
        | c :: rest' =>
            let m := Byte.to_N c in
            if ((128 <=? m) && (m <? 192))%N then
              if decide (1 ≤ outbytesleft)
              then after 2 [decode_char b c] (from_utf8 rest' (outbytesleft - 1))
              else stop Errno.E2BIG
            else stop Errno.EILSEQ
        end
      else stop Errno.EILSEQ
  end.



Definition supported (tocode fromcode : string) : bool :=
  bool_decide ((tocode = code ∧ fromcode = "UTF-8") ∨ (tocode = "UTF-8" ∧ fromcode = code)).

Definition convert (tocode fromcode : string) (s : unit) (inbuf : list byte)
           (outbytesleft : nat) : iconv_result unit :=
  if decide (tocode = "UTF-8") then to_utf8 inbuf outbytesleft
  else from_utf8 inbuf outbytesleft.

Definition messages (errno : Z) : string :=
  if decide (errno = Errno.E2BIG) then "Argument list too long"
  else if decide (errno = Errno.EBADF) then "Bad file descriptor"
  else if decide (errno = Errno.ENOMEM) then "Cannot allocate memory"
  else if decide (errno = Errno.EINVAL) then "Invalid argument"
  else if decide (errno = Errno.EILSEQ) then "Invalid or incomplete multibyte or wide character"
  else "Unknown error " +:+ pretty errno.

Definition engine : Engine := {|
  shift := unit;
  shift_initial := tt;
  iconv_supported := supported;
  iconv_convert := convert;
  strerror := messages
|}.

(** pthread calls that succeed, and ones where registering a value fails. *)
Definition pthread_ok : Pthread := {| key_create_rs := 0; setspecific_rs := λ _, 0%Z |}.
Definition pthread_nomem : Pthread :=
  {| key_create_rs := 0; setspecific_rs := λ _, Errno.ENOMEM |}.
(** A pthread that cannot create the key. *)
Definition pthread_nokey : Pthread :=
  {| key_create_rs := Errno.ENOMEM; setspecific_rs := λ _, 0%Z |}.

(** An engine that only opens the direction from UTF-8 to ISO-8859-1. *)
Definition decode_only : Engine := {|
  shift := unit;
  shift_initial := tt;
  iconv_supported := λ tocode fromcode, bool_decide (tocode = code ∧ fromcode = "UTF-8");
  iconv_convert := convert;
  strerror := messages
|}.

(** An engine whose conversions fail and leave [errno] at zero. *)
Definition mute : Engine := {|
  shift := unit;
  shift_initial := tt;
  iconv_supported := supported;
  iconv_convert := λ _ _ _ _ _, stop 0;
  strerror := messages
|}.

Definition converter : IconvStringConverter := {| _internalCode := code |}.

(** Threads 7 and 8 have each acquired a pair. *)
Definition two_threads : World engine :=
  run_calls engine pthread_ok 1 converter [CallGetDescriptors 7; CallGetDescriptors 8]
            empty_world.

(** A world in which another component holds a descriptor open. *)
Definition foreign : World engine :=
  mkWorld {[ 0%Z := Descriptor (E := engine) "UTF-16" "UTF-8" tt ]} 1 ∅ 0 [].

(** The converter is constructed in [foreign]; thread 7 converts a string,
    thread 8 acquires a pair, thread 7 ends. *)
Definition leftover : World engine :=
  run_calls engine pthread_ok 1 converter
            [CallToUTF8 10 7 [x41; xe9] []; CallGetDescriptors 8; CallThreadExit 7]
            (IconvStringConverter_new engine pthread_ok code foreign).2.

End Latin1.

(** ** An engine that needs more room

    Every input byte becomes five output bytes, and a byte whose output does
    not fit is a shortfall.  It stands for an encoding one character of which
    takes more than four bytes in the other encoding. *)
Module Wide.

Definition code : string := "WIDE".

Fixpoint expand (inbuf : list byte) (outbytesleft : nat) : iconv_result unit :=
  match inbuf with
  | [] => IconvResult 0 [] tt (IconvCount 0)
  | b :: rest =>
      if decide (5 ≤ outbytesleft)
      then Latin1.after 1 (replicate 5 b) (expand rest (outbytesleft - 5))
      else Latin1.stop Errno.E2BIG
  end.

Definition supported (tocode fromcode : string) : bool :=
  bool_decide ((tocode = code ∧ fromcode = "UTF-8") ∨ (tocode = "UTF-8" ∧ fromcode = code)).

(** Five bytes for one in both directions. *)
Definition engine : Engine := {|
  shift := unit;
  shift_initial := tt;
  iconv_supported := supported;
  iconv_convert := λ _ _ _, expand;
  strerror := Latin1.messages
|}.

(** Five bytes for one from UTF-8 only; to UTF-8 as for ISO-8859-1. *)
Definition decoder : Engine := {|
  shift := unit;
  shift_initial := tt;
  iconv_supported := supported;
  iconv_convert := λ tocode _ _ inbuf outbytesleft,
    if decide (tocode = "UTF-8") then Latin1.to_utf8 inbuf outbytesleft
    else expand inbuf outbytesleft;
  strerror := Latin1.messages
|}.

Definition converter : IconvStringConverter := {| _internalCode := code |}.

End Wide.

(** * Proofs *)

(** ** The log *)

Section LogFacts.
Context {E : Engine}.

Lemma new_events_app (w w' : World E) (evs : list event) :
  log w' = rev evs ++ log w → new_events w w' = evs.
Proof.
  intros H. unfold new_events. rewrite H, length_app, length_rev.
  replace (length evs + length (log w) - length (log w)) with (length (rev evs))
    by (rewrite length_rev; lia).
  rewrite take_app_length. apply rev_involutive.
Qed.

Lemma new_events_refl (w : World E) : new_events w w = [].
Proof. apply new_events_app. reflexivity. Qed.

Lemma log_extends_trans (w1 w2 w3 : World E) (evs1 evs2 : list event) :
  log w2 = rev evs1 ++ log w1 → log w3 = rev evs2 ++ log w2 →
  log w3 = rev (evs1 ++ evs2) ++ log w1.
Proof. intros H1 H2. rewrite H2, H1, rev_app_distr, app_assoc. reflexivity. Qed.

End LogFacts.

(** ** The session pool *)

Section SessionPool.
Context (E : Engine) (P : Pthread).
Implicit Types (this : IconvStringConverter) (w : World E).

Lemma createDescriptors_ok this w :
  validated E this → (0 ≤ next_cd w)%Z →
  createDescriptors E this w = (Ret (next_cd w, (next_cd w + 1)%Z), opened_pair this w).
Proof.
  intros [H1 H2] Hn. unfold createDescriptors, bind, iconv_open.
  rewrite H1. unfold iconv_t_invalid.
  destruct (decide (next_cd w = (-1)%Z)) as [?|_]; [lia|].
  cbn. rewrite H2.
  destruct (decide ((next_cd w + 1)%Z = (-1)%Z)) as [?|_]; [lia|].
  reflexivity.
Qed.

Lemma createDescriptors_first_fails this w :
  iconv_supported E (_internalCode this) externalCode = false →
  createDescriptors E this w =
    (Throw (IllegalConversionException
              ("iconv cannot convert from " +:+ externalCode +:+ " to " +:+ _internalCode this)),
     w).
Proof.
  intros H. unfold createDescriptors, bind, iconv_open. rewrite H. reflexivity.
Qed.

Lemma createDescriptors_second_fails this w :
  handles_fresh w →
  iconv_supported E (_internalCode this) externalCode = true →
  iconv_supported E externalCode (_internalCode this) = false →
  ∃ w', createDescriptors E this w =
          (Throw (IllegalConversionException
                    ("iconv cannot convert from " +:+ _internalCode this +:+ " to "
                       +:+ externalCode)), w')
        ∧ descriptors w' = descriptors w
        ∧ specific w' = specific w
        ∧ tick w' = tick w
        ∧ next_cd w' = (next_cd w + 1)%Z
        ∧ log w' = EvClose (next_cd w) :: EvOpen (_internalCode this) externalCode (next_cd w)
                     :: log w.
Proof.
  intros [Hn Hfresh] H1 H2. unfold createDescriptors, bind, iconv_open.
  rewrite H1. unfold iconv_t_invalid.
  destruct (decide (next_cd w = (-1)%Z)) as [?|_]; [lia|].
  cbn. rewrite H2.
  destruct (decide ((-1)%Z = (-1)%Z)) as [_|?]; [|done].
  unfold iconv_close. cbn. rewrite lookup_insert_eq. cbn.
  eexists. split; [reflexivity|]. cbn. repeat split.
  rewrite delete_insert_eq. apply delete_id.
  destruct (descriptors w !! next_cd w) eqn:Hl; [|done].
  specialize (Hfresh (next_cd w) (mk_is_Some _ _ Hl)). lia.
Qed.

Lemma handles_fresh_empty : handles_fresh (@empty_world E).
Proof.
  split; [done|]. intros cd [d Hd]. cbn in Hd. rewrite lookup_empty in Hd. done.
Qed.

(** C3: when the engine cannot open one of the two directions for the
    internal code, the constructor throws IconvInitializationException with
    the message that names the direction the engine could not open, and the
    open descriptors are exactly those open before: no direction was opened
    when the first one (UTF-8 to internal) fails, and when the first opens
    and the second fails the first is closed again before the exception
    leaves. *)
Theorem construction_unsupported_encoding (internalCode : string) w :
  handles_fresh w →
  iconv_supported E internalCode externalCode = false
    ∨ iconv_supported E externalCode internalCode = false →
  ∃ reason w',
    IconvStringConverter_new E P internalCode w
      = (Throw (IconvInitializationException reason), w')
    ∧ descriptors w' = descriptors w
    ∧ specific w' = specific w
    ∧ (if iconv_supported E internalCode externalCode
       then reason = "iconv cannot convert from " +:+ internalCode +:+ " to UTF-8"
            ∧ new_events w w'
                = [EvOpen internalCode externalCode (next_cd w); EvClose (next_cd w)]
       else reason = "iconv cannot convert from UTF-8 to " +:+ internalCode
            ∧ w' = w).
Proof.
  intros Hfresh Hno.
  set (this := {| _internalCode := internalCode |}).
  destruct (iconv_supported E internalCode externalCode) eqn:H1.
  - destruct Hno as [?|H2]; [done|].
    destruct (createDescriptors_second_fails this w Hfresh H1 H2)
      as (w' & Hrun & Hd & Hs & _ & _ & Hlog).
    exists ("iconv cannot convert from " +:+ internalCode +:+ " to UTF-8"), w'.
    unfold IconvStringConverter_new, bind, try_catch. fold this.
    rewrite Hrun. cbn. repeat split; try done.
    apply new_events_app. rewrite Hlog. reflexivity.
  - exists ("iconv cannot convert from UTF-8 to " +:+ internalCode), w.
    unfold IconvStringConverter_new, bind, try_catch. fold this.
    rewrite (createDescriptors_first_fails this w H1). cbn. done.
Qed.

Lemma getDescriptors_registered this t w cdp :
  specific w !! t = Some cdp → getDescriptors E P this t w = (Ret cdp, w).
Proof.
  intros H. unfold getDescriptors, bind, pthread_getspecific. rewrite H. reflexivity.
Qed.

Lemma getDescriptors_unregistered this t w :
  validated E this → (0 ≤ next_cd w)%Z → specific w !! t = None →
  let rs := setspecific_rs P (tick w) in
  let cdp := (next_cd w, (next_cd w + 1)%Z) in
  getDescriptors E P this t w =
    (if decide (rs ≠ 0%Z) then Throw (ThreadSyscallException rs) else Ret cdp,
     mkWorld (descriptors (opened_pair this w)) (next_cd w + 1 + 1)%Z
             (if decide (rs = 0%Z) then <[t := cdp]> (specific w) else specific w)
             (S (tick w))
             (EvSetSpecific t cdp rs :: log (opened_pair this w))).
Proof.
  intros Hv Hn H. unfold getDescriptors, bind, pthread_getspecific. rewrite H.
  rewrite (createDescriptors_ok this w Hv Hn).
  unfold pthread_setspecific. cbn.
  destruct (decide (setspecific_rs P (tick w) ≠ 0%Z)); reflexivity.
Qed.

(** C10: on a thread without a registered pair, when [pthread_setspecific]
    returns a nonzero code, [getDescriptors] throws ThreadSyscallException
    with that code and closes nothing: the two descriptors it has just opened
    are open afterwards, and the thread still has no pair registered. *)
Theorem registration_failure_leaves_pair_open this t w :
  handles_fresh w → validated E this →
  specific w !! t = None →
  setspecific_rs P (tick w) ≠ 0%Z →
  ∃ w',
    getDescriptors E P this t w
      = (Throw (ThreadSyscallException (setspecific_rs P (tick w))), w')
    ∧ descriptors w !! next_cd w = None
    ∧ descriptors w !! (next_cd w + 1)%Z = None
    ∧ is_open w' (next_cd w) (_internalCode this) externalCode
    ∧ is_open w' (next_cd w + 1)%Z externalCode (_internalCode this)
    ∧ specific w' = specific w
    ∧ new_events w w'
        = [EvOpen (_internalCode this) externalCode (next_cd w);
           EvOpen externalCode (_internalCode this) (next_cd w + 1);
           EvSetSpecific t (next_cd w, (next_cd w + 1)%Z) (setspecific_rs P (tick w))].
Proof.
  intros [Hn Hfresh] Hv Hnone Hrs.
  eexists. rewrite (getDescriptors_unregistered this t w Hv Hn Hnone). cbn.
  destruct (decide (setspecific_rs P (tick w) ≠ 0%Z)) as [_|?]; [|done].
  destruct (decide (setspecific_rs P (tick w) = 0%Z)) as [?|_]; [done|].
  split; [reflexivity|]. cbn.
  assert (Hfree : ∀ cd, (next_cd w ≤ cd)%Z → descriptors w !! cd = None).
  { intros cd Hcd. destruct (descriptors w !! cd) eqn:Hl; [|done].
    specialize (Hfresh cd (mk_is_Some _ _ Hl)). lia. }
  repeat split.
  - apply Hfree. lia.
  - apply Hfree. lia.
  - exists (shift_initial E). cbn [descriptors].
    rewrite lookup_insert_ne by lia. apply lookup_insert_eq.
  - exists (shift_initial E). cbn [descriptors]. apply lookup_insert_eq.
  - apply new_events_app. reflexivity.
Qed.

End SessionPool.

Lemma construction_unsupported_encoding_witness :
  ∃ reason w',
    IconvStringConverter_new Latin1.decode_only Latin1.pthread_ok Latin1.code empty_world
      = (Throw (IconvInitializationException reason), w')
    ∧ descriptors w' = ∅
    ∧ specific w' = ∅
    ∧ reason = "iconv cannot convert from ISO-8859-1 to UTF-8"
    ∧ new_events empty_world w' = [EvOpen Latin1.code externalCode 0; EvClose 0].
Proof.
  destruct (construction_unsupported_encoding Latin1.decode_only Latin1.pthread_ok
              Latin1.code empty_world)
    as (reason & w' & H1 & H2 & H3 & H4).
  - apply handles_fresh_empty.
  - right. reflexivity.
  - cbn in H4. exists reason, w'. exact (conj H1 (conj H2 (conj H3 H4))).
Defined.

Lemma registration_failure_leaves_pair_open_witness :
  ∃ w',
    getDescriptors Latin1.engine Latin1.pthread_nomem Latin1.converter 7 empty_world
      = (Throw (ThreadSyscallException Errno.ENOMEM), w')
    ∧ is_open w' 0 Latin1.code externalCode
    ∧ is_open w' 1 externalCode Latin1.code
    ∧ specific w' = ∅.
Proof.
  destruct (registration_failure_leaves_pair_open Latin1.engine Latin1.pthread_nomem
              Latin1.converter 7 empty_world)
    as (w' & H1 & _ & _ & H2 & H3 & H4 & _).
  - apply handles_fresh_empty.
  - split; reflexivity.
  - reflexivity.
  - discriminate.
  - exists w'. exact (conj H1 (conj H2 (conj H3 H4))).
Defined.

(** ** The retry loops *)

Section Loops.
Context (E : Engine) (P : Pthread) (sizeof_charT : nat).
Implicit Types (this : IconvStringConverter) (w : World E).

Lemma same_sessions_refl w : same_sessions w w.
Proof. repeat split; auto. Qed.

Lemma same_sessions_trans w1 w2 w3 :
  same_sessions w1 w2 → same_sessions w2 w3 → same_sessions w1 w3.
Proof.
  intros (A1 & A2 & A4) (B1 & B2 & B4).
  repeat split; try congruence.
  - intros H. apply A4, B4, H.
  - intros H. apply B4, A4, H.
Qed.

Lemma same_sessions_emit ev w : same_sessions w (emit ev w).
Proof. repeat split; auto. Qed.

Lemma iconv_same_sessions cd inbuf o n w :
  same_sessions w (iconv E cd inbuf o n w).2.
Proof.
  repeat split; cbn; unfold is_open; cbn.
  - intros [s Hs]. destruct (decide (cd = cd0)) as [->|Hne].
    + rewrite lookup_alter_eq in Hs.
      destruct (descriptors w !! cd0) as [d|] eqn:Hd; [|done].
      cbn in Hs. injection Hs as <- <- <-. exists (state d). by destruct d.
    + rewrite lookup_alter_ne in Hs by done. eauto.
  - intros [s Hs]. destruct (decide (cd = cd0)) as [->|Hne].
    + rewrite lookup_alter_eq, Hs. cbn. eauto.
    + rewrite lookup_alter_ne by done. eauto.
Qed.

Lemma iconv_descriptor cd inbuf o n w d :
  descriptors w !! cd = Some d →
  descriptors (iconv E cd inbuf o n w).2 !! cd
    = Some (Descriptor (tocode d) (fromcode d)
              (shift_after (iconv_convert E (tocode d) (fromcode d) (state d) inbuf n))).
Proof.
  intros Hd. cbn. rewrite lookup_alter_eq, Hd. cbn. unfold call_engine. rewrite Hd. done.
Qed.

Lemma toUTF8_loop_S fuel cd inbuf outbuf buf w :
  toUTF8_loop E (S fuel) cd inbuf outbuf buf w =
    let howMany := length inbuf `max` 4 in
    let granted := default 0 outbuf in
    let w1 := emit (EvGetMoreBytes howMany outbuf granted) w in
    let r := call_engine E w cd inbuf howMany in
    let w2 := (iconv E cd inbuf granted howMany w1).2 in
    let buf2 := write_at granted (produced r) (resize_bytes (granted + howMany) buf) in
    match status r with
    | IconvFail errno =>
        if decide (errno = Errno.E2BIG) then
          toUTF8_loop E fuel cd (drop (consumed r) inbuf)
                      (Some (granted + length (produced r))) buf2 w2
        else (Throw (IllegalConversionException (error_text E errno)), w2)
    | IconvCount _ => (Ret (granted + length (produced r), buf2), w2)
    end.
Proof.
  cbn. unfold bind. cbn. 
  change (call_engine E (emit _ w) cd inbuf (length inbuf `max` 4)) with (call_engine E w cd inbuf (length inbuf `max` 4)).
  destruct (status (call_engine E w cd inbuf (length inbuf `max` 4))) as [k|e]; [reflexivity|].
  destruct (decide (e = Errno.E2BIG)); reflexivity.
Qed.


Lemma take_resize_bytes o n (l : list byte) :
  o ≤ n → o ≤ length l → take o (resize_bytes n l) = take o l.
Proof.
  intros Hn Hl. unfold resize_bytes.
  rewrite take_app_le by (rewrite length_take; lia).
  rewrite take_take. f_equal. lia.
Qed.

Lemma take_write_at o (p l : list byte) :
  o ≤ length l → take (o + length p) (write_at o p l) = take o l ++ p.
Proof.
  intros Hl. unfold write_at. rewrite app_assoc.
  rewrite take_app_le by (rewrite length_app, length_take; lia).
  rewrite take_ge; [done|]. rewrite length_app, length_take. lia.
Qed.

Lemma take_full_length (D l : list byte) : take (length D) l = D → length D ≤ length l.
Proof. intros H. apply (f_equal length) in H. rewrite length_take in H. lia. Qed.

Lemma decoded_cons ev evs : decoded (ev :: evs) = produced_by ev ++ decoded evs.
Proof. reflexivity. Qed.

Lemma loop_events_cons ev evs :
  loop_events (ev :: evs)
    = if is_loop_event ev then ev :: loop_events evs else loop_events evs.
Proof.
  unfold loop_events. rewrite filter_cons.
  destruct (is_loop_event ev); by case_decide.
Qed.

Lemma toUTF8_loop_run fuel : ∀ cd inbuf outbuf buf w,
  ∃ evs,
    log (toUTF8_loop E fuel cd inbuf outbuf buf w).2 = rev evs ++ log w
    ∧ same_sessions w (toUTF8_loop E fuel cd inbuf outbuf buf w).2
    ∧ retry_trace cd inbuf outbuf evs
    ∧ loop_events evs = evs
    ∧ verdict E (statuses evs) (toUTF8_loop E fuel cd inbuf outbuf buf w).1
    ∧ ∀ D, default 0 outbuf = length D → take (length D) buf = D →
        ∀ c b, (toUTF8_loop E fuel cd inbuf outbuf buf w).1 = Ret (c, b) →
               c = length (D ++ decoded evs) ∧ take c b = D ++ decoded evs.
Proof.
  induction fuel as [|fuel IH]; intros cd inbuf outbuf buf w.
  { exists []. cbn. split_and!; [done | apply same_sessions_refl | constructor | done | constructor | done]. }
  rewrite toUTF8_loop_S. cbn zeta.
  set (howMany := length inbuf `max` 4).
  set (granted := default 0 outbuf).
  set (r := call_engine E w cd inbuf howMany).
  set (w2 := (iconv E cd inbuf granted howMany (emit (EvGetMoreBytes howMany outbuf granted) w)).2).
  set (buf2 := write_at granted (produced r) (resize_bytes (granted + howMany) buf)).
  assert (Hw2 : same_sessions w w2).
  { eapply same_sessions_trans; [apply (same_sessions_emit (EvGetMoreBytes howMany outbuf granted))|].
    apply iconv_same_sessions. }
  assert (Hbuf2 : ∀ D, granted = length D → take (length D) buf = D →
                       take (length (D ++ produced r)) buf2 = D ++ produced r).
  { intros D HD Htake. pose proof (take_full_length _ _ Htake) as Hle.
    rewrite length_app. unfold buf2. rewrite HD.
    rewrite take_write_at by (unfold resize_bytes; rewrite length_app, length_take, length_replicate; lia).
    rewrite take_resize_bytes by lia. by rewrite Htake. }
  set (G := EvGetMoreBytes howMany outbuf granted).
  assert (Hlog2 : log w2 = EvIconv cd inbuf granted howMany (consumed r) (produced r) (status r)
                             :: G :: log w) by reflexivity.
  destruct (status r) as [k|errno] eqn:Hst.
  - exists [G; EvIconv cd inbuf granted howMany (consumed r) (produced r) (IconvCount k)].
    cbn [fst snd]. split_and!.
    + by rewrite Hlog2.
    + exact Hw2.
    + by apply retry_stop.
    + done.
    + constructor.
    + intros D HD Htake c b [= <- <-]. cbn. rewrite app_nil_r. fold granted in HD. split.
      * rewrite length_app. lia.
      * rewrite HD, <- length_app. by apply Hbuf2.
  - destruct (decide (errno = Errno.E2BIG)) as [->|Hne].
    + destruct (IH cd (drop (consumed r) inbuf) (Some (granted + length (produced r))) buf2 w2)
        as (evs & Hlog & Hss & Htr & Hloop & Hv & Hcontent).
      exists (G :: EvIconv cd inbuf granted howMany (consumed r) (produced r)
                     (IconvFail Errno.E2BIG) :: evs).
      split_and!.
      * rewrite Hlog, Hlog2. cbn. rewrite <- !app_assoc. reflexivity.
      * eapply same_sessions_trans; eauto.
      * by apply retry_again.
      * rewrite !loop_events_cons. cbn. by rewrite Hloop.
      * cbn. by apply verdict_retry.
      * intros D HD Htake c b Hret. fold granted in HD.
        destruct (Hcontent (D ++ produced r)) with (c := c) (b := b) as [Hc Hb]; try done.
        { cbn. rewrite length_app. lia. }
        { by apply Hbuf2. }
        rewrite !decoded_cons. cbn. rewrite app_assoc. done.
    + exists [G; EvIconv cd inbuf granted howMany (consumed r) (produced r) (IconvFail errno)].
      cbn [fst snd]. split_and!.
      * by rewrite Hlog2.
      * exact Hw2.
      * apply retry_stop. congruence.
      * done.
      * by constructor.
      * done.
Qed.


Lemma call_engine_bounded w cd inbuf n :
  engine_bounded E →
  consumed (call_engine E w cd inbuf n) ≤ length inbuf
  ∧ length (produced (call_engine E w cd inbuf n)) ≤ n.
Proof.
  intros Hb. unfold call_engine. destruct (descriptors w !! cd) as [d|].
  - apply Hb.
  - cbn. lia.
Qed.

Lemma write_at_0 (D l : list byte) : write_at 0 D l = D ++ drop (length D) l.
Proof. reflexivity. Qed.

Lemma write_at_app (D p l : list byte) :
  write_at (length D) p (write_at 0 D l) = write_at 0 (D ++ p) l.
Proof.
  rewrite !write_at_0. unfold write_at.
  rewrite take_app_length, drop_app_add, drop_drop, length_app, <- app_assoc. done.
Qed.

Lemma write_at_0_app (D l k : list byte) :
  length D ≤ length l → write_at 0 D l ++ k = write_at 0 D (l ++ k).
Proof. intros H. rewrite !write_at_0, drop_app_le by done. by rewrite app_assoc. Qed.

Lemma length_write_at_0 (D l : list byte) :
  length D ≤ length l → length (write_at 0 D l) = length l.
Proof. intros H. rewrite write_at_0, length_app, length_drop. lia. Qed.

Lemma resize_bytes_grow n (l : list byte) :
  length l ≤ n → resize_bytes n l = l ++ replicate (n - length l) x00.
Proof. intros H. unfold resize_bytes. by rewrite take_ge. Qed.

Lemma fromUTF8_loop_S fuel cd inbuf outbuf outbytesleft target w :
  fromUTF8_loop E sizeof_charT (S fuel) cd inbuf outbuf outbytesleft target w =
    let bytesused := default 0 outbuf in
    let increment := length inbuf `max` 4 in
    let newsize := size sizeof_charT target + increment in
    let outbytesleft1 := outbytesleft + increment * sizeof_charT in
    let w1 := emit (EvResize newsize) w in
    let r := call_engine E w cd inbuf outbytesleft1 in
    let w2 := (iconv E cd inbuf bytesused outbytesleft1 w1).2 in
    let target2 := write_at bytesused (produced r) (resize sizeof_charT newsize target) in
    match status r with
    | IconvFail errno =>
        if decide (errno = Errno.E2BIG) then
          fromUTF8_loop E sizeof_charT fuel cd (drop (consumed r) inbuf)
                        (Some (bytesused + length (produced r)))
                        (outbytesleft1 - length (produced r)) target2 w2
        else (Throw (IllegalConversionException (error_text E errno)), w2)
    | IconvCount _ => (Ret (outbytesleft1 - length (produced r), target2), w2)
    end.
Proof.
  cbn. unfold bind. cbn.
  change (call_engine E (emit _ w) cd inbuf ?n) with (call_engine E w cd inbuf n).
  destruct outbuf as [o|]; cbn;
  (destruct (status (call_engine E w cd inbuf _)) as [k|e]; [reflexivity|];
   destruct (decide (e = Errno.E2BIG)); reflexivity).
Qed.

Lemma fromUTF8_loop_run fuel : ∀ cd inbuf outbuf outbytesleft target w,
  ∃ evs,
    log (fromUTF8_loop E sizeof_charT fuel cd inbuf outbuf outbytesleft target w).2
      = rev evs ++ log w
    ∧ same_sessions w (fromUTF8_loop E sizeof_charT fuel cd inbuf outbuf outbytesleft target w).2
    ∧ loop_events evs = evs
    ∧ verdict E (statuses evs)
              (fromUTF8_loop E sizeof_charT fuel cd inbuf outbuf outbytesleft target w).1
    ∧ (engine_bounded E → 0 < sizeof_charT →
       ∀ D T0 chars total,
         length T0 = chars * sizeof_charT →
         default 0 outbuf = length D →
         outbytesleft + length D = total * sizeof_charT →
         target = write_at 0 D (T0 ++ replicate (total * sizeof_charT) x00) →
         ∀ left target',
           (fromUTF8_loop E sizeof_charT fuel cd inbuf outbuf outbytesleft target w).1
             = Ret (left, target') →
           ∃ total',
             left + length (D ++ decoded evs) = total' * sizeof_charT
             ∧ target' = write_at 0 (D ++ decoded evs)
                                  (T0 ++ replicate (total' * sizeof_charT) x00)).
Proof.
  induction fuel as [|fuel IH]; intros cd inbuf outbuf obl target w.
  { exists []. cbn. split_and!; [done | apply same_sessions_refl | done | constructor | done]. }
  rewrite fromUTF8_loop_S. cbn zeta.
  set (bytesused := default 0 outbuf).
  set (increment := length inbuf `max` 4).
  set (newsize := size sizeof_charT target + increment).
  set (obl1 := obl + increment * sizeof_charT).
  set (r := call_engine E w cd inbuf obl1).
  set (w2 := (iconv E cd inbuf bytesused obl1 (emit (EvResize newsize) w)).2).
  set (target2 := write_at bytesused (produced r) (resize sizeof_charT newsize target)).
  assert (Hw2 : same_sessions w w2).
  { eapply same_sessions_trans; [apply (same_sessions_emit (EvResize newsize))|].
    apply iconv_same_sessions. }
  set (G := EvResize newsize).
  assert (Hlog2 : log w2 = EvIconv cd inbuf bytesused obl1 (consumed r) (produced r) (status r)
                             :: G :: log w) by reflexivity.
  assert (Hstep : engine_bounded E → 0 < sizeof_charT →
            ∀ D T0 chars total,
              length T0 = chars * sizeof_charT →
              bytesused = length D →
              obl + length D = total * sizeof_charT →
              target = write_at 0 D (T0 ++ replicate (total * sizeof_charT) x00) →
              (obl1 - length (produced r)) + length (D ++ produced r)
                = (total + increment) * sizeof_charT
              ∧ target2 = write_at 0 (D ++ produced r)
                            (T0 ++ replicate ((total + increment) * sizeof_charT) x00)).
  { intros Hb Hsz D T0 chars total HT0 HD Hobl Htarget.
    destruct (call_engine_bounded w cd inbuf obl1 Hb) as [_ Hp]. fold r in Hp.
    assert (HDle : length D ≤ length (T0 ++ replicate (total * sizeof_charT) x00)).
    { rewrite length_app, length_replicate. lia. }
    assert (Hlen : length target = (chars + total) * sizeof_charT).
    { rewrite Htarget, length_write_at_0 by done.
      rewrite length_app, length_replicate. lia. }
    split.
    - rewrite length_app. unfold obl1. lia.
    - unfold target2, resize, newsize, size. rewrite Hlen, Nat.div_mul by lia.
      rewrite resize_bytes_grow by (rewrite Hlen; lia).
      rewrite Hlen.
      replace ((chars + total + increment) * sizeof_charT - (chars + total) * sizeof_charT)
        with (increment * sizeof_charT) by lia.
      rewrite Htarget, write_at_0_app by done.
      rewrite <- app_assoc, <- replicate_add.
      replace (total * sizeof_charT + increment * sizeof_charT)
        with ((total + increment) * sizeof_charT) by lia.
      rewrite HD. apply write_at_app. }
  destruct (status r) as [k|errno] eqn:Hst.
  - exists [G; EvIconv cd inbuf bytesused obl1 (consumed r) (produced r) (IconvCount k)].
    cbn [fst snd]. split_and!.
    + by rewrite Hlog2.
    + exact Hw2.
    + done.
    + constructor.
    + intros Hb Hsz D T0 chars total HT0 HD Hobl Htarget left target' [= <- <-].
      exists (total + increment). cbn. rewrite app_nil_r. eapply Hstep; eauto.
  - destruct (decide (errno = Errno.E2BIG)) as [->|Hne].
    + destruct (IH cd (drop (consumed r) inbuf) (Some (bytesused + length (produced r)))
                  (obl1 - length (produced r)) target2 w2)
        as (evs & Hlog & Hss & Hloop & Hv & Hcontent).
      exists (G :: EvIconv cd inbuf bytesused obl1 (consumed r) (produced r)
                     (IconvFail Errno.E2BIG) :: evs).
      split_and!.
      * rewrite Hlog, Hlog2. cbn. rewrite <- !app_assoc. reflexivity.
      * eapply same_sessions_trans; eauto.
      * rewrite !loop_events_cons. cbn. by rewrite Hloop.
      * cbn. by apply verdict_retry.
      * intros Hb Hsz D T0 chars total HT0 HD Hobl Htarget left target' Hret.
        destruct (Hstep Hb Hsz D T0 chars total HT0 HD Hobl Htarget) as [Hobl2 Htarget2].
        destruct (Hcontent Hb Hsz (D ++ produced r) T0 chars (total + increment) HT0)
          with (left := left) (target' := target') as (total' & H1 & H2); try done.
        { cbn. rewrite length_app. lia. }
        exists total'. rewrite !decoded_cons. cbn. rewrite app_assoc. done.
    + exists [G; EvIconv cd inbuf bytesused obl1 (consumed r) (produced r) (IconvFail errno)].
      cbn [fst snd]. split_and!.
      * by rewrite Hlog2.
      * exact Hw2.
      * done.
      * by constructor.
      * done.
Qed.









End Loops.

(** ** The calls *)

Section Calls.
Context (E : Engine) (P : Pthread) (sizeof_charT : nat).
Implicit Types (this : IconvStringConverter) (w : World E).

Lemma pool_only_app evs1 evs2 : pool_only evs1 → pool_only evs2 → pool_only (evs1 ++ evs2).
Proof. apply Forall_app_2. Qed.

Lemma pool_only_loop_events evs : pool_only evs → loop_events evs = [].
Proof.
  induction 1 as [|ev evs Hev _ IH]; [done|].
  rewrite loop_events_cons, Hev. exact IH.
Qed.


Lemma pool_only_decoded evs : pool_only evs → decoded evs = [].
Proof.
  induction 1 as [|ev evs Hev _ IH]; [done|].
  rewrite decoded_cons, IH. by destruct ev.
Qed.


Lemma loop_events_app evs1 evs2 :
  loop_events (evs1 ++ evs2) = loop_events evs1 ++ loop_events evs2.
Proof. apply filter_app. Qed.


Lemma decoded_app evs1 evs2 : decoded (evs1 ++ evs2) = decoded evs1 ++ decoded evs2.
Proof. unfold decoded. by rewrite map_app, concat_app. Qed.


Lemma quiet_ret {A} (a : A) : quiet (ret (E := E) a).
Proof. intros w. split; [done|]. exists []. split; [done|constructor]. Qed.

Lemma quiet_throw {A} e : quiet (throw (E := E) (A := A) e).
Proof. intros w. split; [done|]. exists []. split; [done|constructor]. Qed.

Lemma quiet_bind {A B} (m : M E A) (k : A → M E B) :
  quiet m → (∀ a, quiet (k a)) → quiet (bind m k).
Proof.
  intros Hm Hk w. unfold bind. destruct (Hm w) as [Hfuel (evs1 & Hlog1 & Hq1)].
  destruct (m w) as [[a|e|] w1]; cbn in *.
  - destruct (Hk a w1) as [Hfuel2 (evs2 & Hlog2 & Hq2)]. split; [done|].
    exists (evs1 ++ evs2).
    split; [by apply (log_extends_trans w w1)|by apply pool_only_app].
  - split; [done|]. by exists evs1.
  - done.
Qed.

Lemma quiet_step {A} (f : World E → A * World E) (ev : World E → list event) :
  (∀ w, log (f w).2 = rev (ev w) ++ log w ∧ pool_only (ev w)) →
  quiet (λ w, (Ret (f w).1, (f w).2)).
Proof. intros H w. split; [done|]. exists (ev w). apply H. Qed.

Lemma quiet_iconv_open tocode fromcode : quiet (iconv_open E tocode fromcode).
Proof.
  intros w. unfold iconv_open. destruct (iconv_supported E tocode fromcode); cbn.
  - split; [done|]. exists [EvOpen tocode fromcode (next_cd w)].
    split; [done|]. by repeat constructor.
  - split; [done|]. exists []. split; [done|constructor].
Qed.

Lemma quiet_iconv_close cd : quiet (iconv_close E cd).
Proof.
  intros w. unfold iconv_close. destruct (descriptors w !! cd); cbn.
  - split; [done|]. exists [EvClose cd]. split; [done|]. by repeat constructor.
  - split; [done|]. exists []. split; [done|constructor].
Qed.

Lemma quiet_iconv_reset cd : quiet (iconv_reset E cd).
Proof.
  intros w. unfold iconv_reset. destruct (descriptors w !! cd); cbn.
  - split; [done|]. exists [EvReset cd]. split; [done|]. by repeat constructor.
  - split; [done|]. exists []. split; [done|constructor].
Qed.

Lemma quiet_pthread_getspecific t : quiet (pthread_getspecific E t).
Proof. intros w. split; [done|]. exists []. split; [done|constructor]. Qed.

Lemma quiet_pthread_setspecific t val : quiet (pthread_setspecific E P t val).
Proof.
  intros w. split; [done|]. exists [EvSetSpecific t val (setspecific_rs P (tick w))].
  split; [done|]. by repeat constructor.
Qed.

Lemma quiet_createDescriptors this : quiet (createDescriptors E this).
Proof.
  unfold createDescriptors.
  apply quiet_bind; [apply quiet_iconv_open|]. intros first.
  case_decide; [apply quiet_throw|].
  apply quiet_bind; [apply quiet_iconv_open|]. intros second.
  case_decide; [|apply quiet_ret].
  apply quiet_bind; [apply quiet_iconv_close|]. intros _. apply quiet_throw.
Qed.

Lemma quiet_getDescriptors this t : quiet (getDescriptors E P this t).
Proof.
  unfold getDescriptors.
  apply quiet_bind; [apply quiet_pthread_getspecific|]. intros [cdp|]; [apply quiet_ret|].
  apply quiet_bind; [apply quiet_createDescriptors|]. intros cdp.
  apply quiet_bind; [apply quiet_pthread_setspecific|]. intros rs.
  case_decide; [apply quiet_throw|apply quiet_ret].
Qed.

End Calls.

(** ** The two conversions *)

Section Conversions.
Context (E : Engine) (P : Pthread) (sizeof_charT : nat).
Implicit Types (this : IconvStringConverter) (w : World E).

Lemma toUTF8_unfold fuel this t source buf w :
  toUTF8 E P sizeof_charT fuel this t source buf w =
    match getDescriptors E P this t w with
    | (Ret cdp, w1) =>
        toUTF8_loop E fuel cdp.2 (take (length source / sizeof_charT * sizeof_charT) source)
                    None buf (iconv_reset E cdp.2 w1).2
    | (Throw e, w1) => (Throw e, w1)
    | (OutOfFuel, w1) => (OutOfFuel, w1)
    end.
Proof.
  unfold toUTF8, bind. destruct (getDescriptors E P this t w) as [[cdp|e|] w1]; try done.
  unfold iconv_reset. by destruct (descriptors w1 !! cdp.2).
Qed.

Lemma fromUTF8_unfold fuel this t source target w :
  fromUTF8 E P sizeof_charT fuel this t source target w =
    match getDescriptors E P this t w with
    | (Ret cdp, w1) =>
        match fromUTF8_loop E sizeof_charT fuel cdp.1 source None 0 target
                            (iconv_reset E cdp.1 w1).2 with
        | (Ret r, w3) =>
            let newsize := size sizeof_charT r.2 - r.1 / sizeof_charT in
            (Ret (resize sizeof_charT newsize r.2), emit (EvResize newsize) w3)
        | (Throw e, w3) => (Throw e, w3)
        | (OutOfFuel, w3) => (OutOfFuel, w3)
        end
    | (Throw e, w1) => (Throw e, w1)
    | (OutOfFuel, w1) => (OutOfFuel, w1)
    end.
Proof.
  unfold fromUTF8, bind. destruct (getDescriptors E P this t w) as [[cdp|e|] w1]; try done.
  unfold iconv_reset. by destruct (descriptors w1 !! cdp.1).
Qed.




End Conversions.

(** ** The registry *)

Section Registry.
Context (E : Engine) (P : Pthread) (sizeof_charT : nat).
Implicit Types (this : IconvStringConverter) (w : World E).

Lemma is_open_is_Some w cd :
  is_Some (descriptors w !! cd) ↔ ∃ tocode fromcode, is_open w cd tocode fromcode.
Proof.
  split.
  - intros [[tc fc s] Hd]. exists tc, fc, s. done.
  - intros (tc & fc & s & Hd). eauto.
Qed.

Lemma registry_ok_same_sessions this w w' :
  same_sessions w w' → registry_ok E this w → registry_ok E this w'.
Proof.
  intros (Hn & Hs & Ho) [[Hz Hfresh] Hpairs Howned]. split.
  - split; [by rewrite Hn|]. intros cd Hcd. rewrite Hn. apply Hfresh.
    apply is_open_is_Some in Hcd as (tc & fc & Hcd). apply is_open_is_Some.
    exists tc, fc. by apply Ho.
  - intros t a b Ht. rewrite Hs in Ht. destruct (Hpairs t a b Ht) as (Hab & Ha & Hb).
    split_and!; [done | by apply Ho | by apply Ho].
  - intros t u p q Htu Ht Hu. rewrite Hs in Ht, Hu. eauto.
Qed.

Lemma iconv_reset_same_sessions cd w : same_sessions w (iconv_reset E cd w).2.
Proof.
  unfold iconv_reset. destruct (descriptors w !! cd) as [d|] eqn:Hd; [|apply same_sessions_refl].
  repeat split; cbn; unfold is_open; cbn.
  - intros [s Hs]. destruct (decide (cd = cd0)) as [->|Hne].
    + rewrite lookup_insert_eq in Hs. injection Hs as <- <- <-. exists (state d). by destruct d.
    + rewrite lookup_insert_ne in Hs by done. eauto.
  - intros [s Hs]. destruct (decide (cd = cd0)) as [->|Hne].
    + rewrite lookup_insert_eq. rewrite Hd in Hs. injection Hs as ->. cbn. eauto.
    + rewrite lookup_insert_ne by done. eauto.
Qed.

Lemma iconv_reset_descriptor cd w tocode fromcode :
  is_open w cd tocode fromcode →
  descriptors (iconv_reset E cd w).2 !! cd = Some (Descriptor tocode fromcode (shift_initial E)).
Proof.
  intros [s Hs]. unfold iconv_reset. rewrite Hs. cbn. apply lookup_insert_eq.
Qed.

Lemma registry_ok_opened this w :
  registry_ok E this w → registry_ok E this
    (mkWorld (descriptors (opened_pair this w)) (next_cd w + 1 + 1)%Z (specific w) (S (tick w))
             (log (opened_pair this w))).
Proof.
  intros [[Hz Hfresh] Hpairs Howned].
  assert (Hold : ∀ cd tc fc, is_open w cd tc fc →
            is_open (mkWorld (descriptors (opened_pair this w)) (next_cd w + 1 + 1)%Z
                             (specific w) (S (tick w)) (log (opened_pair this w))) cd tc fc).
  { intros cd tc fc [s Hs]. exists s. cbn.
    assert (0 ≤ cd < next_cd w)%Z by (apply Hfresh; eauto).
    rewrite !lookup_insert_ne by lia. done. }
  split.
  - split; cbn; [lia|]. intros cd [d Hd].
    destruct (decide (cd = (next_cd w + 1)%Z)) as [->|H1]; [lia|].
    destruct (decide (cd = next_cd w)) as [->|H2]; [lia|].
    rewrite !lookup_insert_ne in Hd by done.
    specialize (Hfresh cd (mk_is_Some _ _ Hd)). lia.
  - intros t a b Ht. cbn in Ht. destruct (Hpairs t a b Ht) as (Hab & Ha & Hb).
    split_and!; [done|by apply Hold|by apply Hold].
  - intros t u p q Htu Ht Hu. cbn in Ht, Hu. eauto.
Qed.

Lemma getDescriptors_acquires this t w cdp w1 :
  registry_ok E this w → validated E this →
  getDescriptors E P this t w = (Ret cdp, w1) →
  registry_ok E this w1 ∧ specific w1 !! t = Some cdp.
Proof.
  intros Hok Hv Hget.
  destruct (specific w !! t) as [cdp'|] eqn:Ht.
  - rewrite (getDescriptors_registered E P this t w cdp' Ht) in Hget.
    injection Hget as <- <-. done.
  - pose proof Hok as [[Hz Hfresh] Hpairs Howned].
    rewrite (getDescriptors_unregistered E P this t w Hv Hz Ht) in Hget. cbn zeta in Hget.
    destruct (decide (setspecific_rs P (tick w) ≠ 0%Z)) as [?|Hrs]; [done|].
    apply dec_stable in Hrs.
    destruct (decide (setspecific_rs P (tick w) = 0%Z)) as [_|?]; [|done].
    injection Hget as <- <-.
    pose proof (registry_ok_opened this w Hok) as [Hf' Hp' Ho'].
    split; [|apply lookup_insert_eq].
    assert (Hnew : ∀ u a b, specific w !! u = Some (a, b) →
              (a < next_cd w)%Z ∧ (b < next_cd w)%Z).
    { intros u a b Hu. destruct (Hpairs u a b Hu) as (_ & [sa Ha] & [sb Hb]).
      split; [apply (Hfresh a)|apply (Hfresh b)]; eauto. }
    split.
    + exact Hf'.
    + intros u a b Hu. cbn in Hu.
      destruct (decide (t = u)) as [->|Hne].
      * rewrite lookup_insert_eq in Hu. injection Hu as <- <-. split_and!.
        -- lia.
        -- exists (shift_initial E). cbn. rewrite lookup_insert_ne by lia.
           apply lookup_insert_eq.
        -- exists (shift_initial E). cbn. apply lookup_insert_eq.
      * rewrite lookup_insert_ne in Hu by done. apply (Hp' u a b Hu).
    + intros u v p q Huv Hu Hv'. cbn in Hu, Hv'.
      rewrite lookup_insert in Hu, Hv'.
      destruct (decide (t = u)) as [Hu1|Hu1]; destruct (decide (t = v)) as [Hv1|Hv1].
      * congruence.
      * injection Hu as <-. destruct q as [c d]. destruct (Hnew v c d Hv'). cbn. lia.
      * injection Hv' as <-. destruct p as [c d]. destruct (Hnew u c d Hu). cbn. lia.
      * eauto.
Qed.

End Registry.

(** ** What the conversions guarantee *)

Section Guarantees.
Context (E : Engine) (P : Pthread) (sizeof_charT : nat).
Implicit Types (this : IconvStringConverter) (w : World E).

Lemma toUTF8_acquired fuel this t source buf w cdp w1 :
  registry_ok E this w → validated E this →
  getDescriptors E P this t w = (Ret cdp, w1) →
  let w2 := (iconv_reset E cdp.2 w1).2 in
  toUTF8 E P sizeof_charT fuel this t source buf w
    = toUTF8_loop E fuel cdp.2 (take (length source / sizeof_charT * sizeof_charT) source)
                  None buf w2
  ∧ descriptors w2 !! cdp.2
      = Some (Descriptor externalCode (_internalCode this) (shift_initial E))
  ∧ registry_ok E this w2
  ∧ specific w2 !! t = Some cdp
  ∧ ∃ evs0, log w2 = rev evs0 ++ log w ∧ pool_only evs0.
Proof.
  intros Hok Hv Hget w2.
  destruct (getDescriptors_acquires E P this t w cdp w1 Hok Hv Hget) as [Hok1 Ht].
  pose proof (iconv_reset_same_sessions E cdp.2 w1) as Hss. fold w2 in Hss.
  destruct cdp as [a b]. destruct (reg_pairs E this w1 Hok1 t a b Ht) as (_ & _ & Hb).
  split_and!.
  - by rewrite toUTF8_unfold, Hget.
  - by apply iconv_reset_descriptor.
  - by apply (registry_ok_same_sessions E this w1).
  - destruct Hss as (_ & -> & _). done.
  - destruct (quiet_getDescriptors E P this t w) as [_ (evs0 & Hlog0 & Hq0)].
    rewrite Hget in Hlog0. cbn in Hlog0.
    destruct (quiet_iconv_reset E b w1) as [_ (evs1 & Hlog1 & Hq1)].
    exists (evs0 ++ evs1). split; [by apply (log_extends_trans w w1)|by apply pool_only_app].
Qed.

Lemma fromUTF8_acquired this t w cdp w1 :
  registry_ok E this w → validated E this →
  getDescriptors E P this t w = (Ret cdp, w1) →
  let w2 := (iconv_reset E cdp.1 w1).2 in
  descriptors w2 !! cdp.1
      = Some (Descriptor (_internalCode this) externalCode (shift_initial E))
  ∧ registry_ok E this w2
  ∧ specific w2 !! t = Some cdp
  ∧ ∃ evs0, log w2 = rev evs0 ++ log w ∧ pool_only evs0.
Proof.
  intros Hok Hv Hget w2.
  destruct (getDescriptors_acquires E P this t w cdp w1 Hok Hv Hget) as [Hok1 Ht].
  pose proof (iconv_reset_same_sessions E cdp.1 w1) as Hss. fold w2 in Hss.
  destruct cdp as [a b]. destruct (reg_pairs E this w1 Hok1 t a b Ht) as (_ & Ha & _).
  split_and!.
  - by apply iconv_reset_descriptor.
  - by apply (registry_ok_same_sessions E this w1).
  - destruct Hss as (_ & -> & _). done.
  - destruct (quiet_getDescriptors E P this t w) as [_ (evs0 & Hlog0 & Hq0)].
    rewrite Hget in Hlog0. cbn in Hlog0.
    destruct (quiet_iconv_reset E a w1) as [_ (evs1 & Hlog1 & Hq1)].
    exists (evs0 ++ evs1). split; [by apply (log_extends_trans w w1)|by apply pool_only_app].
Qed.

Lemma new_events_split (w w2 w' : World E) evs0 evs :
  log w2 = rev evs0 ++ log w → log w' = rev evs ++ log w2 →
  new_events w w' = evs0 ++ new_events w2 w'.
Proof.
  intros H0 H1. rewrite (new_events_app w2 w' evs H1).
  apply new_events_app. by apply (log_extends_trans w w2).
Qed.

Lemma toUTF8_new_events fuel this t source buf w cdp w1 :
  getDescriptors E P this t w = (Ret cdp, w1) →
  let w2 := (iconv_reset E cdp.2 w1).2 in
  let inbuf := take (length source / sizeof_charT * sizeof_charT) source in
  ∃ evs0,
    pool_only evs0 ∧ log w2 = rev evs0 ++ log w
    ∧ new_events w (toUTF8 E P sizeof_charT fuel this t source buf w).2
        = evs0 ++ new_events w2 (toUTF8_loop E fuel cdp.2 inbuf None buf w2).2.
Proof.
  intros Hget w2 inbuf.
  destruct (quiet_getDescriptors E P this t w) as [_ (evs0 & Hlog0 & Hq0)].
  rewrite Hget in Hlog0. cbn in Hlog0.
  destruct (quiet_iconv_reset E cdp.2 w1) as [_ (evs1 & Hlog1 & Hq1)]. fold w2 in Hlog1.
  assert (Hlog2 : log w2 = rev (evs0 ++ evs1) ++ log w) by by apply (log_extends_trans w w1).
  exists (evs0 ++ evs1). split_and!; [by apply pool_only_app | done |].
  rewrite toUTF8_unfold, Hget. fold w2 inbuf.
  destruct (toUTF8_loop_run E fuel cdp.2 inbuf None buf w2) as (evs & Hlog & _).
  by apply (new_events_split w w2 _ _ evs).
Qed.

Lemma fromUTF8_new_events fuel this t source target w cdp w1 :
  getDescriptors E P this t w = (Ret cdp, w1) →
  let w2 := (iconv_reset E cdp.1 w1).2 in
  let run := fromUTF8_loop E sizeof_charT fuel cdp.1 source None 0 target w2 in
  ∃ evs0,
    pool_only evs0 ∧ log w2 = rev evs0 ++ log w
    ∧ new_events w (fromUTF8 E P sizeof_charT fuel this t source target w).2
        = evs0 ++ new_events w2 run.2
            ++ match run.1 with
               | Ret r => [EvResize (size sizeof_charT r.2 - r.1 / sizeof_charT)]
               | _ => []
               end.
Proof.
  intros Hget w2 run.
  destruct (quiet_getDescriptors E P this t w) as [_ (evs0 & Hlog0 & Hq0)].
  rewrite Hget in Hlog0. cbn in Hlog0.
  destruct (quiet_iconv_reset E cdp.1 w1) as [_ (evs1 & Hlog1 & Hq1)]. fold w2 in Hlog1.
  assert (Hlog2 : log w2 = rev (evs0 ++ evs1) ++ log w) by by apply (log_extends_trans w w1).
  exists (evs0 ++ evs1). split_and!; [by apply pool_only_app | done |].
  rewrite fromUTF8_unfold, Hget. fold w2 run.
  destruct (fromUTF8_loop_run E sizeof_charT fuel cdp.1 source None 0 target w2)
    as (evs & Hlog & _). fold run in Hlog.
  rewrite (new_events_app w2 run.2 evs Hlog).
  destruct run as [[r|e|] w3]; cbn [fst snd] in *.
  - apply new_events_app. cbn [log emit]. rewrite Hlog, Hlog2, !rev_app_distr. cbn.
    by rewrite <- !app_assoc.
  - rewrite app_nil_r. apply new_events_app. by apply (log_extends_trans w w2).
  - rewrite app_nil_r. apply new_events_app. by apply (log_extends_trans w w2).
Qed.

Lemma getDescriptors_fails this t w e w1 :
  getDescriptors E P this t w = (Throw e, w1) →
  ∃ evs0, pool_only evs0 ∧ new_events w w1 = evs0.
Proof.
  intros Hget. destruct (quiet_getDescriptors E P this t w) as [_ (evs0 & Hlog0 & Hq0)].
  rewrite Hget in Hlog0. cbn in Hlog0. exists evs0. split; [done|]. by apply new_events_app.
Qed.

Lemma getDescriptors_fuel this t w w1 : getDescriptors E P this t w ≠ (OutOfFuel, w1).
Proof.
  intros Hget. destruct (quiet_getDescriptors E P this t w) as [Hf _]. by rewrite Hget in Hf.
Qed.



(** C7: on an empty input range [toUTF8] goes through its loop once: it asks
    the buffer for the minimum of 4 bytes from the null cursor, the engine
    completes at once and stores nothing, and the cursor returned is the
    start of the granted window. *)
Theorem toUTF8_empty_input fuel this t buf w cdp w1 :
  registry_ok E this w → validated E this →
  engine_empty E externalCode (_internalCode this) →
  getDescriptors E P this t w = (Ret cdp, w1) →
  ∃ c k w',
    toUTF8 E P sizeof_charT (S fuel) this t [] buf w = (Ret (0, resize_bytes 4 buf), w')
    ∧ loop_events (new_events w w')
        = [EvGetMoreBytes 4 None 0; EvIconv cdp.2 [] 0 4 c [] (IconvCount k)].
Proof.
  intros Hok Hv Hempty Hget.
  destruct (toUTF8_acquired (S fuel) this t [] buf w cdp w1 Hok Hv Hget)
    as (Hrun & Hd & _).
  destruct (toUTF8_new_events (S fuel) this t [] buf w cdp w1 Hget)
    as (evs0 & Hq0 & _ & Hnew).
  rewrite Hrun in Hnew |- *. clear Hrun. rewrite take_nil in Hnew |- *.
  set (w2 := (iconv_reset E cdp.2 w1).2) in *.
  set (w3 := (iconv E cdp.2 [] 0 4 (emit (EvGetMoreBytes 4 None 0) w2)).2).
  assert (Hcall : call_engine E w2 cdp.2 [] 4
            = iconv_convert E externalCode (_internalCode this) (shift_initial E) [] 4).
  { unfold call_engine. by rewrite Hd. }
  destruct (Hempty 4) as [Hp [k Hk]]. rewrite <- Hcall in Hp, Hk.
  assert (Hloop : toUTF8_loop E (S fuel) cdp.2 [] None buf w2
                    = (Ret (0, resize_bytes 4 buf), w3)).
  { rewrite toUTF8_loop_S. cbn zeta. cbn [length default Nat.max Nat.add].
    rewrite Hk, Hp. reflexivity. }
  rewrite Hloop in Hnew |- *. cbn [snd] in Hnew.
  exists (consumed (call_engine E w2 cdp.2 [] 4)), k, w3. split; [done|].
  rewrite Hnew, loop_events_app, (pool_only_loop_events _ Hq0). cbn [app].
  rewrite (new_events_app w2 w3 [EvGetMoreBytes 4 None 0;
             EvIconv cdp.2 [] 0 4 (consumed (call_engine E w2 cdp.2 [] 4)) []
                     (IconvCount k)]).
  - by rewrite !loop_events_cons.
  - assert (Hlog3 : log w3
              = EvIconv cdp.2 [] 0 4 (consumed (call_engine E w2 cdp.2 [] 4))
                        (produced (call_engine E w2 cdp.2 [] 4))
                        (status (call_engine E w2 cdp.2 [] 4))
                  :: EvGetMoreBytes 4 None 0 :: log w2) by reflexivity.
    by rewrite Hlog3, Hk, Hp.
Qed.

Lemma resize_roundtrip chars (target : list byte) :
  0 < sizeof_charT → length target = chars * sizeof_charT →
  size sizeof_charT (resize sizeof_charT (chars + 4) target) = chars + 4
  ∧ resize sizeof_charT chars (resize sizeof_charT (chars + 4) target) = target.
Proof.
  intros Hsz Hlen. unfold resize, size.
  rewrite (resize_bytes_grow _ target) by lia.
  split.
  - rewrite length_app, length_replicate, Hlen.
    replace (chars * sizeof_charT + ((chars + 4) * sizeof_charT - chars * sizeof_charT))
      with ((chars + 4) * sizeof_charT) by lia.
    apply Nat.div_mul. lia.
  - unfold resize_bytes. rewrite <- Hlen, take_app_length, length_app. 
    replace (length target - (length target + _)) with 0 by lia.
    cbn. apply app_nil_r.
Qed.

(** C6, amended: on an empty input range a [fromUTF8] call that acquires its
    descriptor leaves the destination as it was on entry, and on the way it
    grows the destination once, by 4 characters before it calls the engine,
    and cuts it back to its length on entry afterwards. *)
Theorem fromUTF8_empty_input fuel this t target chars w cdp w1 :
  registry_ok E this w → validated E this →
  engine_empty E (_internalCode this) externalCode →
  0 < sizeof_charT → length target = chars * sizeof_charT →
  getDescriptors E P this t w = (Ret cdp, w1) →
  ∃ c k w',
    fromUTF8 E P sizeof_charT (S fuel) this t [] target w = (Ret target, w')
    ∧ loop_events (new_events w w')
        = [EvResize (chars + 4);
           EvIconv cdp.1 [] 0 (4 * sizeof_charT) c [] (IconvCount k);
           EvResize chars].
Proof.
  intros Hok Hv Hempty Hsz Hlen Hget.
  destruct (fromUTF8_acquired this t w cdp w1 Hok Hv Hget) as (Hd & _).
  destruct (fromUTF8_new_events (S fuel) this t [] target w cdp w1 Hget)
    as (evs0 & Hq0 & _ & Hnew).
  rewrite fromUTF8_unfold, Hget in Hnew |- *.
  set (w2 := (iconv_reset E cdp.1 w1).2) in *.
  set (w3 := (iconv E cdp.1 [] 0 (4 * sizeof_charT) (emit (EvResize (chars + 4)) w2)).2).
  assert (Hsize : size sizeof_charT target = chars).
  { unfold size. rewrite Hlen. apply Nat.div_mul. lia. }
  assert (Hcall : call_engine E w2 cdp.1 [] (4 * sizeof_charT)
            = iconv_convert E (_internalCode this) externalCode (shift_initial E) []
                            (4 * sizeof_charT)).
  { unfold call_engine. by rewrite Hd. }
  destruct (Hempty (4 * sizeof_charT)) as [Hp [k Hk]]. rewrite <- Hcall in Hp, Hk.
  destruct (resize_roundtrip chars target Hsz Hlen) as [Hs1 Hs2].
  assert (Hloop : fromUTF8_loop E sizeof_charT (S fuel) cdp.1 [] None 0 target w2
                    = (Ret (4 * sizeof_charT, resize sizeof_charT (chars + 4) target), w3)).
  { rewrite fromUTF8_loop_S. cbn zeta. cbn [length default Nat.max Nat.add].
    rewrite Hsize, Hk, Hp. cbn [length]. rewrite Nat.sub_0_r. reflexivity. }
  rewrite Hloop in Hnew |- *. cbn [fst snd] in Hnew |- *. cbn zeta.
  rewrite Hs1, Nat.div_mul in Hnew |- * by lia.
  replace (chars + 4 - 4) with chars in Hnew |- * by lia. rewrite Hs2.
  exists (consumed (call_engine E w2 cdp.1 [] (4 * sizeof_charT))), k.
  eexists. split; [reflexivity|].
  rewrite Hnew, !loop_events_app, (pool_only_loop_events _ Hq0). cbn [app].
  rewrite (new_events_app w2 w3 [EvResize (chars + 4);
             EvIconv cdp.1 [] 0 (4 * sizeof_charT)
                     (consumed (call_engine E w2 cdp.1 [] (4 * sizeof_charT))) []
                     (IconvCount k)]).
  - by rewrite !loop_events_cons.
  - assert (Hlog3 : log w3
              = EvIconv cdp.1 [] 0 (4 * sizeof_charT)
                        (consumed (call_engine E w2 cdp.1 [] (4 * sizeof_charT)))
                        (produced (call_engine E w2 cdp.1 [] (4 * sizeof_charT)))
                        (status (call_engine E w2 cdp.1 [] (4 * sizeof_charT)))
                  :: EvResize (chars + 4) :: log w2) by reflexivity.
    by rewrite Hlog3, Hk, Hp.
Qed.


Lemma ceil_div_bounds d s :
  0 < s → d ≤ (d + s - 1) / s * s ∧ (d + s - 1) / s * s < d + s.
Proof.
  intros Hs.
  pose proof (Nat.Div0.mul_div_le (d + s - 1) s) as H1.
  pose proof (Nat.mul_succ_div_gt (d + s - 1) s) as H2.
  nia.
Qed.

Lemma unused_chars left d total s :
  0 < s → left + d = total * s → left / s = total - (d + s - 1) / s.
Proof.
  intros Hs H. destruct (ceil_div_bounds d s Hs) as [H1 H2].
  set (q := (d + s - 1) / s) in *.
  assert (Hq : q ≤ total) by nia.
  assert (Ht : total * s = (total - q) * s + q * s) by nia.
  symmetry. apply (Nat.div_unique left s (total - q) (q * s - d)); [lia|].
  rewrite (Nat.mul_comm s). lia.
Qed.

Lemma take_write_at_0 (D A : list byte) m k :
  length D ≤ length A + m → m ≤ k →
  take (length A + m) (write_at 0 D (A ++ replicate k x00))
    = write_at 0 D (A ++ replicate m x00).
Proof.
  intros HD Hm. rewrite !write_at_0.
  rewrite take_app_ge by done. f_equal.
  rewrite take_drop_commute.
  replace (length D + (length A + m - length D)) with (length A + m) by lia.
  f_equal. rewrite take_app_ge by lia.
  replace (length A + m - length A) with m by lia.
  rewrite take_replicate. f_equal. f_equal. lia.
Qed.

(** What a successful [fromUTF8] leaves in the destination: the bytes the
    engine stored, laid over the start of the old content extended by as
    many zero characters as the engine produced characters. *)
Lemma fromUTF8_content fuel this t source target chars w target' w' :
  engine_bounded E → 0 < sizeof_charT → length target = chars * sizeof_charT →
  fromUTF8 E P sizeof_charT fuel this t source target w = (Ret target', w') →
  let D := decoded (new_events w w') in
  let n := (length D + sizeof_charT - 1) / sizeof_charT in
  target' = write_at 0 D (target ++ replicate (n * sizeof_charT) x00).
Proof.
  intros Hb Hsz Hlen Hrun.
  destruct (getDescriptors E P this t w) as [[cdp|e|] w1] eqn:Hget;
    [| by rewrite fromUTF8_unfold, Hget in Hrun | by apply getDescriptors_fuel in Hget].
  destruct (fromUTF8_new_events fuel this t source target w cdp w1 Hget)
    as (evs0 & Hq0 & _ & Hnew).
  rewrite Hrun in Hnew. cbn [snd] in Hnew.
  rewrite fromUTF8_unfold, Hget in Hrun.
  set (w2 := (iconv_reset E cdp.1 w1).2) in *.
  destruct (fromUTF8_loop_run E sizeof_charT fuel cdp.1 source None 0 target w2)
    as (evs & Hlog & _ & _ & _ & Hcontent).
  rewrite (new_events_app w2 _ evs Hlog) in Hnew.
  destruct (fromUTF8_loop E sizeof_charT fuel cdp.1 source None 0 target w2)
    as [[[left target2]|e|] w3]; [|done|done].
  cbn [fst snd] in *. injection Hrun as Htarget' _.
  destruct (Hcontent Hb Hsz [] target chars 0 Hlen) with (left := left) (target' := target2)
    as (total & Hleft & Htarget2); try done.
  { unfold write_at. cbn. by rewrite app_nil_r. }
  cbn [app] in Hleft, Htarget2.
  assert (HD : decoded (new_events w w') = decoded evs).
  { rewrite Hnew, !decoded_app, (pool_only_decoded _ Hq0). cbn. by rewrite app_nil_r. }
  cbn zeta. rewrite HD. clear HD Hnew.
  set (n := (length (decoded evs) + sizeof_charT - 1) / sizeof_charT).
  destruct (ceil_div_bounds (length (decoded evs)) sizeof_charT Hsz) as [Hn1 Hn2].
  fold n in Hn1, Hn2.
  assert (Hlen2 : length target2 = (chars + total) * sizeof_charT).
  { rewrite Htarget2, length_write_at_0; rewrite length_app, length_replicate; lia. }
  rewrite <- Htarget'. unfold resize, size. rewrite Hlen2, Nat.div_mul by lia.
  rewrite (unused_chars left (length (decoded evs)) total sizeof_charT Hsz Hleft). fold n.
  assert (n ≤ total) by nia.
  replace (chars + total - (total - n)) with (chars + n) by lia.
  unfold resize_bytes. rewrite Hlen2.
  replace ((chars + n) * sizeof_charT - (chars + total) * sizeof_charT) with 0 by nia.
  cbn [replicate]. rewrite app_nil_r, Htarget2.
  replace ((chars + n) * sizeof_charT) with (length target + n * sizeof_charT) by lia.
  apply take_write_at_0; nia.
Qed.

(** C2, amended: a successful [fromUTF8] stores the decoded characters from
    the start of the destination, not after what the destination held: the
    result is the old content, extended by one zero character for each
    character produced, with the decoded bytes written over its beginning.
    Its length is the length on entry plus the number of characters
    produced (for every destination, empty or not), and a destination that
    is empty on entry ends up holding exactly the decoded characters. *)
Theorem fromUTF8_result fuel this t source target chars w target' w' :
  engine_bounded E → 0 < sizeof_charT → length target = chars * sizeof_charT →
  fromUTF8 E P sizeof_charT fuel this t source target w = (Ret target', w') →
  let D := decoded (new_events w w') in
  let n := (length D + sizeof_charT - 1) / sizeof_charT in
  target' = write_at 0 D (target ++ replicate (n * sizeof_charT) x00)
  ∧ size sizeof_charT target' = chars + n
  ∧ (target = [] → length D = n * sizeof_charT → target' = D).
Proof.
  intros Hb Hsz Hlen Hrun D n.
  pose proof (fromUTF8_content fuel this t source target chars w target' w'
                Hb Hsz Hlen Hrun) as Hc.
  cbn zeta in Hc. fold D n in Hc.
  destruct (ceil_div_bounds (length D) sizeof_charT Hsz) as [Hn1 Hn2]. fold n in Hn1, Hn2.
  split_and!.
  - exact Hc.
  - unfold size. rewrite Hc, length_write_at_0; rewrite length_app, length_replicate.
    + rewrite Hlen. replace (chars * sizeof_charT + n * sizeof_charT)
        with ((chars + n) * sizeof_charT) by lia.
      apply Nat.div_mul. lia.
    + lia.
  - intros -> HD. rewrite Hc, write_at_0. cbn [app].
    rewrite drop_ge by (rewrite length_replicate; lia). apply app_nil_r.
Qed.



End Guarantees.

(** ** The worlds a converter reaches *)

Section Reachable.
Context (E : Engine) (P : Pthread) (sizeof_charT : nat).
Implicit Types (this : IconvStringConverter) (w : World E).

Lemma registry_ok_relog this w tk lg :
  registry_ok E this w →
  registry_ok E this (mkWorld (descriptors w) (next_cd w) (specific w) tk lg).
Proof.
  apply registry_ok_same_sessions.
  unfold same_sessions. split_and!; [done | done |].
  intros cd tc fc. split; intros H; exact H.
Qed.

Lemma getDescriptors_preserves this t w :
  registry_ok E this w → validated E this →
  registry_ok E this (getDescriptors E P this t w).2.
Proof.
  intros Hok Hv.
  destruct (getDescriptors E P this t w) as [[cdp|e|] w1] eqn:Hget.
  - by destruct (getDescriptors_acquires E P this t w cdp w1 Hok Hv Hget).
  - destruct (specific w !! t) as [cdp|] eqn:Ht.
    + by rewrite (getDescriptors_registered E P this t w cdp Ht) in Hget.
    + pose proof Hok as [[Hz _] _ _].
      rewrite (getDescriptors_unregistered E P this t w Hv Hz Ht) in Hget. cbn zeta in Hget.
      destruct (decide (setspecific_rs P (tick w) ≠ 0%Z)) as [Hrs|Hrs]; [|done].
      destruct (decide (setspecific_rs P (tick w) = 0%Z)) as [?|_]; [done|].
      injection Hget as _ <-. cbn [snd].
      apply (registry_ok_relog this _ (S (tick w)) _ (registry_ok_opened E this w Hok)).
  - by apply getDescriptors_fuel in Hget.
Qed.

Lemma toUTF8_preserves fuel this t source buf w :
  registry_ok E this w → validated E this →
  registry_ok E this (toUTF8 E P sizeof_charT fuel this t source buf w).2.
Proof.
  intros Hok Hv. pose proof (getDescriptors_preserves this t w Hok Hv) as Hok1.
  rewrite toUTF8_unfold.
  destruct (getDescriptors E P this t w) as [[cdp|e|] w1]; cbn [snd] in *; try done.
  set (inbuf := take _ source).
  destruct (toUTF8_loop_run E fuel cdp.2 inbuf None buf (iconv_reset E cdp.2 w1).2)
    as (evs & _ & Hss & _).
  eapply registry_ok_same_sessions; [exact Hss|].
  eapply registry_ok_same_sessions; [apply iconv_reset_same_sessions|done].
Qed.

Lemma fromUTF8_preserves fuel this t source target w :
  registry_ok E this w → validated E this →
  registry_ok E this (fromUTF8 E P sizeof_charT fuel this t source target w).2.
Proof.
  intros Hok Hv. pose proof (getDescriptors_preserves this t w Hok Hv) as Hok1.
  rewrite fromUTF8_unfold.
  destruct (getDescriptors E P this t w) as [[cdp|e|] w1]; cbn [snd] in *; try done.
  destruct (fromUTF8_loop_run E sizeof_charT fuel cdp.1 source None 0 target
              (iconv_reset E cdp.1 w1).2) as (evs & _ & Hss & _).
  assert (Hok3 : registry_ok E this
            (fromUTF8_loop E sizeof_charT fuel cdp.1 source None 0 target
               (iconv_reset E cdp.1 w1).2).2).
  { eapply registry_ok_same_sessions; [exact Hss|].
    eapply registry_ok_same_sessions; [apply iconv_reset_same_sessions|done]. }
  destruct (fromUTF8_loop E sizeof_charT fuel cdp.1 source None 0 target
              (iconv_reset E cdp.1 w1).2) as [[r|e|] w3]; cbn [snd] in *; try done.
  eapply registry_ok_same_sessions; [apply same_sessions_emit|done].
Qed.

Lemma thread_exit_preserves this t w :
  registry_ok E this w → registry_ok E this (thread_exit E t w).2.
Proof.
  intros Hok. pose proof Hok as [[Hz Hfresh] Hpairs Howned].
  unfold thread_exit, bind, pthread_getspecific.
  destruct (specific w !! t) as [[a b]|] eqn:Ht; [|done].
  destruct (Hpairs t a b Ht) as (Hab & [sa Ha] & [sb Hb]).
  unfold cleanupKey, close, bind, iconv_close. cbn. rewrite Ha. cbn.
  rewrite lookup_delete_ne, Hb by done. cbn.
  split.
  - split; [done|]. cbn. intros cd [d Hd].
    apply lookup_delete_Some in Hd as [_ Hd]. apply lookup_delete_Some in Hd as [_ Hd].
    apply Hfresh. eauto.
  - cbn. intros u c d Hu. apply lookup_delete_Some in Hu as [Htu Hu].
    destruct (Hpairs u c d Hu) as (Hcd & [sc Hc] & [sd Hd]).
    destruct (Howned t u (a, b) (c, d) Htu Ht Hu) as (H1 & H2 & H3 & H4). cbn in *.
    split_and!; [done| |].
    + exists sc. cbn. by rewrite !lookup_delete_ne.
    + exists sd. cbn. by rewrite !lookup_delete_ne.
  - cbn. intros u v p q Huv Hu Hv'.
    apply lookup_delete_Some in Hu as [_ Hu]. apply lookup_delete_Some in Hv' as [_ Hv'].
    eauto.
Qed.

Lemma constructed this w0 w :
  handles_fresh w0 →
  IconvStringConverter_new E P (_internalCode this) w0 = (Ret this, w) →
  validated E this ∧ registry_ok E this w.
Proof.
  intros Hfresh Hnew. pose proof Hfresh as [Hz Hf].
  destruct this as [code]. cbn [_internalCode] in *.
  set (this := {| _internalCode := code |}) in *.
  destruct (iconv_supported E code externalCode) eqn:H1.
  2: { unfold IconvStringConverter_new, bind, try_catch in Hnew. fold this in Hnew.
       by rewrite (createDescriptors_first_fails E this w0 H1) in Hnew. }
  destruct (iconv_supported E externalCode code) eqn:H2.
  2: { destruct (createDescriptors_second_fails E this w0 Hfresh H1 H2) as (w' & Hrun & _).
       unfold IconvStringConverter_new, bind, try_catch in Hnew. fold this in Hnew.
       by rewrite Hrun in Hnew. }
  assert (Hv : validated E this) by done. split; [done|].
  unfold IconvStringConverter_new, bind, try_catch in Hnew. fold this in Hnew.
  rewrite (createDescriptors_ok E this w0 Hv Hz) in Hnew.
  unfold close, bind, iconv_close in Hnew. cbn in Hnew.
  rewrite lookup_insert_ne, lookup_insert_eq in Hnew by lia. cbn in Hnew.
  rewrite lookup_delete_ne, lookup_insert_eq in Hnew by lia. cbn in Hnew.
  unfold pthread_key_create in Hnew.
  destruct (decide (key_create_rs P ≠ 0%Z)) as [?|Hrs]; [done|].
  apply dec_stable in Hrs. rewrite Hrs in Hnew.
  destruct (decide (0%Z = 0%Z)) as [_|?]; [|done]. injection Hnew as <-.
  split.
  - split; cbn; [lia|]. intros cd [d Hd].
    apply lookup_delete_Some in Hd as [Hne1 Hd]. apply lookup_delete_Some in Hd as [Hne2 Hd].
    rewrite !lookup_insert_ne in Hd by done.
    specialize (Hf cd (mk_is_Some _ _ Hd)). lia.
  - cbn. intros t a b Ht. by rewrite lookup_empty in Ht.
  - cbn. intros t u p q _ Ht. by rewrite lookup_empty in Ht.
Qed.

Lemma reachable_registry_ok this w :
  reachable E P sizeof_charT this w → validated E this ∧ registry_ok E this w.
Proof.
  induction 1 as [w0 w Hfresh Hnew | w c Hreach [Hv Hok]].
  - by apply (constructed this w0 w).
  - split; [done|]. destruct c as [t | fuel t source buf | fuel t source target | t]; cbn.
    + by apply getDescriptors_preserves.
    + by apply toUTF8_preserves.
    + by apply fromUTF8_preserves.
    + by apply thread_exit_preserves.
Qed.

(** C4: in every world a constructed converter can reach, the registry slot
    of each thread is either empty or holds a pair of two valid handles,
    both open (the first from UTF-8 to the internal code, the second back);
    [getDescriptors] on a thread with a registered pair returns that pair
    and changes nothing, and only on a thread without one does it open
    descriptors: two that were not open before, which it registers. *)
Theorem registry_pairs_complete this w :
  reachable E P sizeof_charT this w →
  (∀ t, match specific w !! t with
        | None => True
        | Some (a, b) =>
            a ≠ iconv_t_invalid ∧ b ≠ iconv_t_invalid
            ∧ is_open w a (_internalCode this) externalCode
            ∧ is_open w b externalCode (_internalCode this)
        end)
  ∧ (∀ t cdp, specific w !! t = Some cdp → getDescriptors E P this t w = (Ret cdp, w))
  ∧ (∀ t cdp w', specific w !! t = None →
       getDescriptors E P this t w = (Ret cdp, w') →
       descriptors w !! cdp.1 = None ∧ descriptors w !! cdp.2 = None
       ∧ specific w' = <[t := cdp]> (specific w)
       ∧ new_events w w'
           = [EvOpen (_internalCode this) externalCode cdp.1;
              EvOpen externalCode (_internalCode this) cdp.2;
              EvSetSpecific t cdp 0]).
Proof.
  intros Hreach. destruct (reachable_registry_ok this w Hreach) as [Hv Hok].
  pose proof Hok as [[Hz Hfresh] Hpairs Howned].
  split_and!.
  - intros t. destruct (specific w !! t) as [[a b]|] eqn:Ht; [|done].
    destruct (Hpairs t a b Ht) as (_ & Ha & Hb).
    assert (Hvalid : ∀ cd tc fc, is_open w cd tc fc → cd ≠ iconv_t_invalid).
    { intros cd tc fc [s Hs]. specialize (Hfresh cd (mk_is_Some _ _ Hs)).
      unfold iconv_t_invalid. lia. }
    split_and!; eauto.
  - intros t cdp. apply getDescriptors_registered.
  - intros t cdp w' Ht Hget.
    rewrite (getDescriptors_unregistered E P this t w Hv Hz Ht) in Hget. cbn zeta in Hget.
    destruct (decide (setspecific_rs P (tick w) ≠ 0%Z)) as [?|Hrs]; [done|].
    apply dec_stable in Hrs.
    destruct (decide (setspecific_rs P (tick w) = 0%Z)) as [_|?]; [|done].
    injection Hget as <- <-. cbn [fst snd specific].
    assert (Hfree : ∀ cd, (next_cd w ≤ cd)%Z → descriptors w !! cd = None).
    { intros cd Hcd. destruct (descriptors w !! cd) eqn:Hl; [|done].
      specialize (Hfresh cd (mk_is_Some _ _ Hl)). lia. }
    split_and!; [apply Hfree; lia | apply Hfree; lia | done |].
    apply new_events_app. rewrite Hrs. reflexivity.
Qed.

End Reachable.

(** ** The ISO-8859-1 engine meets the assumptions *)

Module Latin1Facts.
Import Latin1.



Lemma to_utf8_bounded inbuf : ∀ n,
  consumed (to_utf8 inbuf n) ≤ length inbuf ∧ length (produced (to_utf8 inbuf n)) ≤ n.
Proof.
  induction inbuf as [|b rest IH]; intros n; cbn; [lia|].
  case_decide; cbn; [|lia].
  destruct (IH (n - length (encode_char b))). rewrite length_app. lia.
Qed.

Lemma from_utf8_bounded inbuf : ∀ n,
  consumed (from_utf8 inbuf n) ≤ length inbuf ∧ length (produced (from_utf8 inbuf n)) ≤ n.
Proof.
  induction inbuf as [inbuf IH] using (induction_ltof1 _ (@length byte)).
  unfold ltof in IH. intros n. destruct inbuf as [|b rest]; cbn; [lia|].
  destruct (Byte.to_N b <? 128)%N.
  - case_decide; cbn; [|lia]. destruct (IH rest) with (n := n - 1); cbn; lia.
  - destruct ((Byte.to_N b =? 194) || (Byte.to_N b =? 195))%N; cbn; [|lia].
    destruct rest as [|c rest']; cbn; [lia|].
    destruct ((128 <=? Byte.to_N c) && (Byte.to_N c <? 192))%N; cbn; [|lia].
    case_decide; cbn; [|lia]. destruct (IH rest') with (n := n - 1); cbn; lia.
Qed.



Lemma engine_is_bounded : engine_bounded engine.
Proof.
  intros tocode fromcode s inbuf n. cbn. unfold convert.
  case_decide; [apply to_utf8_bounded|apply from_utf8_bounded].
Qed.



Lemma engine_is_empty tocode fromcode : engine_empty engine tocode fromcode.
Proof.
  intros n. cbn. unfold convert. case_decide; cbn; eauto.
Qed.



End Latin1Facts.

(** ** Runs of the model on the ISO-8859-1 engine *)

(** Five characters, four of which take two bytes of UTF-8: the first window
    of 5 bytes holds three characters, the loop asks for 4 more bytes from
    the cursor and the engine finishes. *)
Example toUTF8_two_rounds :
  loop_events
    (new_events empty_world
       (toUTF8 Latin1.engine Latin1.pthread_ok 1 10 Latin1.converter 7
               [x41; xe9; xe9; xe9; xe9] [] empty_world).2)
  = [EvGetMoreBytes 5 None 0;
     EvIconv 1 [x41; xe9; xe9; xe9; xe9] 0 5 3 [x41; xc3; xa9; xc3; xa9]
             (IconvFail Errno.E2BIG);
     EvGetMoreBytes 4 (Some 5) 5;
     EvIconv 1 [xe9; xe9] 5 4 2 [xc3; xa9; xc3; xa9] (IconvCount 0)].
Proof. vm_compute. reflexivity. Qed.

(** A sequence the input cuts short, and a byte that starts no character. *)
Example fromUTF8_truncated_sequence :
  (fromUTF8 Latin1.engine Latin1.pthread_ok 1 10 Latin1.converter 7 [x41; xc3] []
            empty_world).1
  = Throw (IllegalConversionException "Invalid argument").
Proof. vm_compute. reflexivity. Qed.

Example fromUTF8_illegal_byte :
  (fromUTF8 Latin1.engine Latin1.pthread_ok 1 10 Latin1.converter 7 [xff] []
            empty_world).1
  = Throw (IllegalConversionException "Invalid or incomplete multibyte or wide character").
Proof. vm_compute. reflexivity. Qed.

(** A failure that leaves [errno] at zero. *)
Example toUTF8_unknown_error :
  (toUTF8 Latin1.mute Latin1.pthread_ok 1 10 Latin1.converter 7 [x41] [] empty_world).1
  = Throw (IllegalConversionException "Unknown error").
Proof. vm_compute. reflexivity. Qed.

(** Two-byte characters and an engine that writes three bytes: the result
    keeps the second character whole, padded with a zero byte. *)
Example fromUTF8_odd_byte_count :
  (fromUTF8 Latin1.engine Latin1.pthread_ok 2 10 Latin1.converter 7 [x78; x79; x7a] []
            empty_world).1
  = Ret [x78; x79; x7a; x00].
Proof. vm_compute. reflexivity. Qed.

(** ** The statements at concrete inputs *)

Lemma registry_ok_empty (E : Engine) (this : IconvStringConverter) :
  registry_ok E this empty_world.
Proof.
  split.
  - apply handles_fresh_empty.
  - intros t a b Ht. cbn in Ht. by rewrite lookup_empty in Ht.
  - intros t u p q _ Ht. cbn in Ht. by rewrite lookup_empty in Ht.
Qed.

Lemma run_eq {E : Engine} {A : Type} (run : outcome A * World E) (a : A) :
  run.1 = Ret a → run = (Ret a, run.2).
Proof. destruct run as [r w]. cbn. by intros ->. Qed.

Lemma latin1_validated : validated Latin1.engine Latin1.converter.
Proof. split; reflexivity. Qed.


(** C2 fails as stated: with a destination that holds [abc] on entry, the
    two decoded characters [xy] land on its first two characters; the result
    is neither [abc] followed by [xy] nor does it start with [abc]. *)
Lemma fromUTF8_overwrites_destination :
  (fromUTF8 Latin1.engine Latin1.pthread_ok 1 10 Latin1.converter 7
            [x78; x79] [x61; x62; x63] empty_world).1
    = Ret [x78; x79; x63; x00; x00]
  ∧ [x78; x79; x63; x00; x00] ≠ [x61; x62; x63] ++ [x78; x79]
  ∧ take 3 [x78; x79; x63; x00; x00] ≠ [x61; x62; x63].
Proof. split_and!; [vm_compute; reflexivity | discriminate | discriminate]. Qed.

Lemma fromUTF8_result_witness :
  let run := fromUTF8 Latin1.engine Latin1.pthread_ok 1 10 Latin1.converter 7
                      [x78; x79] [x61; x62; x63] empty_world in
  let D := decoded (new_events empty_world run.2) in
  let n := (length D + 1 - 1) / 1 in
  [x78; x79; x63; x00; x00] = write_at 0 D ([x61; x62; x63] ++ replicate (n * 1) x00)
  ∧ size 1 [x78; x79; x63; x00; x00] = 3 + n
  ∧ ([x61; x62; x63] = [] → length D = n * 1 → [x78; x79; x63; x00; x00] = D).
Proof.
  apply (fromUTF8_result Latin1.engine Latin1.pthread_ok 1 10 Latin1.converter 7
           [x78; x79] [x61; x62; x63] 3 empty_world [x78; x79; x63; x00; x00]
           (fromUTF8 Latin1.engine Latin1.pthread_ok 1 10 Latin1.converter 7
                     [x78; x79] [x61; x62; x63] empty_world).2).
  - apply Latin1Facts.engine_is_bounded.
  - lia.
  - reflexivity.
  - apply run_eq. vm_compute. reflexivity.
Defined.

(** C6 fails as stated: on an empty input and an empty destination, the
    destination is resized to 4 characters, more than it had on entry, and
    then back to none. *)
Lemma fromUTF8_grows_on_empty_input :
  loop_events
    (new_events empty_world
       (fromUTF8 Latin1.engine Latin1.pthread_ok 1 10 Latin1.converter 7 [] [] empty_world).2)
    = [EvResize 4; EvIconv 0 [] 0 4 0 [] (IconvCount 0); EvResize 0]
  ∧ size 1 [] < 4.
Proof. split; [vm_compute; reflexivity | vm_compute; lia]. Qed.

Lemma fromUTF8_empty_input_witness :
  ∃ c k w',
    fromUTF8 Latin1.engine Latin1.pthread_ok 1 1 Latin1.converter 7 [] [x61; x62; x63]
             empty_world
      = (Ret [x61; x62; x63], w')
    ∧ loop_events (new_events empty_world w')
        = [EvResize (3 + 4); EvIconv 0 [] 0 (4 * 1) c [] (IconvCount k); EvResize 3].
Proof.
  apply (fromUTF8_empty_input Latin1.engine Latin1.pthread_ok 1 0 Latin1.converter 7
           [x61; x62; x63] 3 empty_world (0%Z, 1%Z)
           (getDescriptors Latin1.engine Latin1.pthread_ok Latin1.converter 7 empty_world).2).
  - apply registry_ok_empty.
  - apply latin1_validated.
  - apply Latin1Facts.engine_is_empty.
  - lia.
  - reflexivity.
  - reflexivity.
Defined.

Lemma toUTF8_empty_input_witness :
  ∃ c k w',
    toUTF8 Latin1.engine Latin1.pthread_ok 1 1 Latin1.converter 7 [] [] empty_world
      = (Ret (0, resize_bytes 4 []), w')
    ∧ loop_events (new_events empty_world w')
        = [EvGetMoreBytes 4 None 0; EvIconv 1 [] 0 4 c [] (IconvCount k)].
Proof.
  apply (toUTF8_empty_input Latin1.engine Latin1.pthread_ok 1 0 Latin1.converter 7 []
           empty_world (0%Z, 1%Z)
           (getDescriptors Latin1.engine Latin1.pthread_ok Latin1.converter 7 empty_world).2).
  - apply registry_ok_empty.
  - apply latin1_validated.
  - apply Latin1Facts.engine_is_empty.
  - reflexivity.
Defined.


(** The world after constructing the converter and converting one string on
    thread 7. *)
Lemma registry_pairs_complete_witness :
  let w := run_call Latin1.engine Latin1.pthread_ok 1 Latin1.converter
             (CallToUTF8 10 7 [x41; xe9] [])
             (IconvStringConverter_new Latin1.engine Latin1.pthread_ok Latin1.code
                                       empty_world).2 in
  specific w !! 7 = Some (2%Z, 3%Z)
  ∧ getDescriptors Latin1.engine Latin1.pthread_ok Latin1.converter 7 w
      = (Ret (2%Z, 3%Z), w)
  ∧ is_open w 2 Latin1.code externalCode
  ∧ is_open w 3 externalCode Latin1.code.
Proof.
  intros w.
  destruct (registry_pairs_complete Latin1.engine Latin1.pthread_ok 1 Latin1.converter w)
    as (Hpairs & Hsame & _).
  - apply reachable_call.
    apply (reachable_new Latin1.engine Latin1.pthread_ok 1 Latin1.converter empty_world).
    + apply handles_fresh_empty.
    + apply run_eq. vm_compute. reflexivity.
  - assert (Hw : specific w !! 7 = Some (2%Z, 3%Z)) by (vm_compute; reflexivity).
    specialize (Hpairs 7). rewrite Hw in Hpairs. destruct Hpairs as (_ & _ & Ha & Hb).
    exact (conj Hw (conj (Hsame 7 _ Hw) (conj Ha Hb))).
Defined.

(** * Lifetime, sessions and threads *)

(** ** Construction and destruction *)

Section LifetimeFacts.
Context (E : Engine) (P : Pthread).
Implicit Types (this : IconvStringConverter) (w : World E).

(** Closing the two handles [createDescriptors] has just opened gives back
    the descriptors there were. *)
Lemma close_opened_pair this w :
  handles_fresh w →
  ∃ w', close E (next_cd w, (next_cd w + 1)%Z) (opened_pair this w) = (Ret tt, w')
    ∧ descriptors w' = descriptors w
    ∧ specific w' = specific w
    ∧ next_cd w' = (next_cd w + 2)%Z
    ∧ tick w' = tick w
    ∧ log w' = EvClose (next_cd w + 1) :: EvClose (next_cd w)
                 :: EvOpen externalCode (_internalCode this) (next_cd w + 1)
                 :: EvOpen (_internalCode this) externalCode (next_cd w) :: log w.
Proof.
  intros [Hz Hf].
  assert (Hfree : ∀ cd, (next_cd w ≤ cd)%Z → descriptors w !! cd = None).
  { intros cd Hcd. destruct (descriptors w !! cd) eqn:Hl; [|done].
    specialize (Hf cd (mk_is_Some _ _ Hl)). lia. }
  unfold close, bind, iconv_close. cbn.
  rewrite lookup_insert_ne, lookup_insert_eq by lia. cbn.
  rewrite lookup_delete_ne, lookup_insert_eq by lia. cbn.
  eexists. split; [reflexivity|]. cbn. split_and!; [|done|lia|done|done].
  apply map_eq. intros cd.
  destruct (decide (cd = (next_cd w + 1)%Z)) as [->|H1].
  { rewrite lookup_delete_eq. symmetry. apply Hfree. lia. }
  rewrite lookup_delete_ne by done.
  destruct (decide (cd = next_cd w)) as [->|H2].
  { rewrite lookup_delete_eq. symmetry. apply Hfree. lia. }
  rewrite lookup_delete_ne by done. by rewrite !lookup_insert_ne.
Qed.

(** Construction with an encoding the engine supports: the trial pair is
    opened and closed, then the key is created. *)
Lemma construction_validated (internalCode : string) w :
  handles_fresh w →
  iconv_supported E internalCode externalCode = true →
  iconv_supported E externalCode internalCode = true →
  ∃ w1,
    IconvStringConverter_new E P internalCode w
      = (if decide (key_create_rs P ≠ 0%Z)
         then Throw (ThreadSyscallException (key_create_rs P))
         else Ret {| _internalCode := internalCode |},
         mkWorld (descriptors w1) (next_cd w1)
                 (if decide (key_create_rs P = 0%Z) then ∅ else specific w1)
                 (tick w1) (log w1))
    ∧ descriptors w1 = descriptors w
    ∧ specific w1 = specific w
    ∧ next_cd w1 = (next_cd w + 2)%Z
    ∧ log w1 = EvClose (next_cd w + 1) :: EvClose (next_cd w)
                 :: EvOpen externalCode internalCode (next_cd w + 1)
                 :: EvOpen internalCode externalCode (next_cd w) :: log w.
Proof.
  intros Hfresh H1 H2. pose proof Hfresh as [Hz _].
  set (this := {| _internalCode := internalCode |}).
  assert (Hv : validated E this) by done.
  destruct (close_opened_pair this w Hfresh) as (w1 & Hclose & Hd & Hs & Hn & _ & Hlog).
  exists w1. split; [|done].
  unfold IconvStringConverter_new, bind, try_catch. fold this.
  rewrite (createDescriptors_ok E this w Hv Hz), Hclose.
  unfold pthread_key_create.
  destruct (decide (key_create_rs P ≠ 0%Z)) as [Hrs|Hrs].
  - destruct (decide (key_create_rs P = 0%Z)) as [?|_]; [done|]. by destruct w1.
  - destruct (decide (key_create_rs P = 0%Z)) as [_|?]; [done|]. by apply dec_stable in Hrs.
Qed.

(** X1: constructing a converter for an encoding the engine converts in both
    directions, with a key that pthread creates, succeeds and leaves no
    session behind: the pair opened to check the encoding is closed again,
    so the descriptors open afterwards are those open before, no thread has
    a registered pair, and the requests made are the two opens and the two
    closes, in that order. *)
Theorem construction_leaves_no_session (internalCode : string) w :
  handles_fresh w →
  iconv_supported E internalCode externalCode = true →
  iconv_supported E externalCode internalCode = true →
  key_create_rs P = 0%Z →
  ∃ w',
    IconvStringConverter_new E P internalCode w = (Ret {| _internalCode := internalCode |}, w')
    ∧ descriptors w' = descriptors w
    ∧ specific w' = ∅
    ∧ new_events w w'
        = [EvOpen internalCode externalCode (next_cd w);
           EvOpen externalCode internalCode (next_cd w + 1);
           EvClose (next_cd w);
           EvClose (next_cd w + 1)].
Proof.
  intros Hfresh H1 H2 Hrs.
  destruct (construction_validated internalCode w Hfresh H1 H2)
    as (w1 & Hrun & Hd & _ & _ & Hlog).
  rewrite Hrun, Hrs.
  destruct (decide (0%Z ≠ 0%Z)) as [?|_]; [done|].
  destruct (decide (0%Z = 0%Z)) as [_|?]; [|done].
  eexists. split; [reflexivity|]. cbn. split_and!; [done|done|].
  apply new_events_app. cbn. by rewrite Hlog.
Qed.

(** X2: when the engine converts the encoding in both directions but
    [pthread_key_create] fails with [rs], the constructor throws
    ThreadSyscallException carrying [rs]; the pair opened to check the
    encoding has been closed by then, so no descriptor stays open, and the
    registry is as before. *)
Theorem construction_key_failure (internalCode : string) w :
  handles_fresh w →
  iconv_supported E internalCode externalCode = true →
  iconv_supported E externalCode internalCode = true →
  key_create_rs P ≠ 0%Z →
  ∃ w',
    IconvStringConverter_new E P internalCode w
      = (Throw (ThreadSyscallException (key_create_rs P)), w')
    ∧ descriptors w' = descriptors w
    ∧ specific w' = specific w
    ∧ new_events w w'
        = [EvOpen internalCode externalCode (next_cd w);
           EvOpen externalCode internalCode (next_cd w + 1);
           EvClose (next_cd w);
           EvClose (next_cd w + 1)].
Proof.
  intros Hfresh H1 H2 Hrs.
  destruct (construction_validated internalCode w Hfresh H1 H2)
    as (w1 & Hrun & Hd & Hs & _ & Hlog).
  rewrite Hrun.
  destruct (decide (key_create_rs P ≠ 0%Z)) as [_|?]; [|done].
  destruct (decide (key_create_rs P = 0%Z)) as [?|_]; [done|].
  eexists. split; [reflexivity|]. cbn. split_and!; [done|done|].
  apply new_events_app. cbn. by rewrite Hlog.
Qed.

(** Closing a registered pair. *)
Lemma close_registered this t a b w :
  registry_ok E this w → specific w !! t = Some (a, b) →
  close E (a, b) w
    = (Ret tt, mkWorld (delete b (delete a (descriptors w))) (next_cd w) (specific w) (tick w)
                       (EvClose b :: EvClose a :: log w)).
Proof.
  intros [_ Hpairs _] Ht.
  destruct (Hpairs t a b Ht) as (Hab & [sa Ha] & [sb Hb]).
  unfold close, bind, iconv_close. cbn. rewrite Ha. cbn.
  by rewrite lookup_delete_ne, Hb by done.
Qed.

(** X3: the destructor, run by thread [t], closes the pair registered for
    [t], first then second, if there is one, and makes no other request;
    then the key is gone.  The pairs other threads registered are not closed:
    their descriptors stay open and are in no registry any more. *)
Theorem destruction_closes_own_pair_only this t w :
  registry_ok E this w →
  ∃ w',
    IconvStringConverter_delete E t w = (Ret tt, w')
    ∧ specific w' = ∅
    ∧ match specific w !! t with
      | Some (a, b) =>
          descriptors w' = delete b (delete a (descriptors w))
          ∧ new_events w w' = [EvClose a; EvClose b]
      | None => descriptors w' = descriptors w ∧ new_events w w' = []
      end
    ∧ ∀ u c d, u ≠ t → specific w !! u = Some (c, d) →
        is_open w' c (_internalCode this) externalCode
        ∧ is_open w' d externalCode (_internalCode this)
        ∧ stray w' c ∧ stray w' d.
Proof.
  intros Hok. pose proof Hok as [_ Hpairs Howned].
  assert (Hstray : ∀ w' cd tc fc, specific w' = ∅ → is_open w' cd tc fc → stray w' cd).
  { intros w' cd tc fc Hs [s Hcd]. split; [by rewrite Hcd|].
    intros u p. by rewrite Hs, lookup_empty. }
  unfold IconvStringConverter_delete, bind, pthread_getspecific, cleanupKey, pthread_key_delete.
  destruct (specific w !! t) as [[a b]|] eqn:Ht.
  - rewrite (close_registered this t a b w Hok Ht).
    eexists. split; [reflexivity|]. cbn. split_and!; [done|done|by apply new_events_app|].
    intros u c d Hu Huv.
    destruct (Hpairs u c d Huv) as (_ & [sc Hc] & [sd Hd]).
    destruct (Howned u t (c, d) (a, b) Hu Huv Ht) as (? & ? & ? & ?). cbn in *.
    assert (Hc' : is_open (mkWorld (delete b (delete a (descriptors w))) (next_cd w) ∅ (tick w)
                             (EvClose b :: EvClose a :: log w))
                          c (_internalCode this) externalCode).
    { exists sc. cbn. by rewrite !lookup_delete_ne. }
    assert (Hd' : is_open (mkWorld (delete b (delete a (descriptors w))) (next_cd w) ∅ (tick w)
                             (EvClose b :: EvClose a :: log w))
                          d externalCode (_internalCode this)).
    { exists sd. cbn. by rewrite !lookup_delete_ne. }
    split_and!; [done | done | by eapply Hstray | by eapply Hstray].
  - eexists. split; [reflexivity|]. cbn.
    split_and!; [done|done|by apply new_events_app|].
    intros u c d Hu Huv. destruct (Hpairs u c d Huv) as (_ & Hc & Hd).
    split_and!; [done | done | by eapply Hstray | by eapply Hstray].
Qed.

Lemma thread_exit_registered this t a b w :
  registry_ok E this w → specific w !! t = Some (a, b) →
  thread_exit E t w
    = (Ret tt, mkWorld (delete b (delete a (descriptors w))) (next_cd w)
                       (delete t (specific w)) (tick w) (EvClose b :: EvClose a :: log w)).
Proof.
  intros [_ Hpairs _] Ht.
  destruct (Hpairs t a b Ht) as (Hab & [sa Ha] & [sb Hb]).
  unfold thread_exit, bind, pthread_getspecific. rewrite Ht.
  unfold cleanupKey, close, bind, iconv_close. cbn. rewrite Ha. cbn.
  by rewrite lookup_delete_ne, Hb by done.
Qed.

(** X4: when a thread that holds a pair ends, [cleanupKey] closes the two
    descriptors of its pair, first then second, and nothing else: the slot of
    the thread is empty afterwards, the registry stays in order, and the
    descriptors of the pairs still registered are untouched. *)
Theorem thread_exit_closes_pair this t a b w :
  registry_ok E this w → specific w !! t = Some (a, b) →
  ∃ w',
    thread_exit E t w = (Ret tt, w')
    ∧ specific w' = delete t (specific w)
    ∧ descriptors w' = delete b (delete a (descriptors w))
    ∧ new_events w w' = [EvClose a; EvClose b]
    ∧ registry_ok E this w'
    ∧ ∀ u c d, specific w' !! u = Some (c, d) →
        descriptors w' !! c = descriptors w !! c ∧ descriptors w' !! d = descriptors w !! d.
Proof.
  intros Hok Ht. pose proof Hok as [_ _ Howned].
  pose proof (thread_exit_preserves E this t w Hok) as Hok'.
  rewrite (thread_exit_registered this t a b w Hok Ht) in *. cbn [snd] in Hok'.
  eexists. split; [reflexivity|]. cbn.
  split_and!; [done|done|by apply new_events_app|done|].
  intros u c d Hu. apply lookup_delete_Some in Hu as [Htu Hu].
  destruct (Howned t u (a, b) (c, d) Htu Ht Hu) as (? & ? & ? & ?). cbn in *.
  by rewrite !lookup_delete_ne.
Qed.

End LifetimeFacts.

(** ** What a conversion touches *)

Section Frames.
Context (E : Engine) (P : Pthread) (sizeof_charT : nat).
Implicit Types (this : IconvStringConverter) (w : World E).

Lemma length_resize_bytes n (l : list byte) : length (resize_bytes n l) = n.
Proof. unfold resize_bytes. rewrite length_app, length_take, length_replicate. lia. Qed.

Lemma length_write_at o (p l : list byte) :
  o + length p ≤ length l → length (write_at o p l) = length l.
Proof. intros H. unfold write_at. rewrite !length_app, length_take, length_drop. lia. Qed.

Lemma iconv_frame cd inbuf o n w cd' :
  cd' ≠ cd → descriptors (iconv E cd inbuf o n w).2 !! cd' = descriptors w !! cd'.
Proof. intros H. cbn. by rewrite lookup_alter_ne. Qed.

Lemma iconv_reset_frame cd w cd' :
  cd' ≠ cd → descriptors (iconv_reset E cd w).2 !! cd' = descriptors w !! cd'.
Proof.
  intros H. unfold iconv_reset.
  destruct (descriptors w !! cd); cbn; [by rewrite lookup_insert_ne|done].
Qed.

Lemma toUTF8_loop_frame fuel : ∀ cd inbuf outbuf buf w cd',
  cd' ≠ cd → descriptors (toUTF8_loop E fuel cd inbuf outbuf buf w).2 !! cd' = descriptors w !! cd'.
Proof.
  induction fuel as [|fuel IH]; intros cd inbuf outbuf buf w cd' Hne; [done|].
  rewrite toUTF8_loop_S. cbn zeta.
  destruct (status _) as [k|errno]; [|destruct (decide (errno = Errno.E2BIG))];
    cbn [snd]; rewrite ?IH by done; by rewrite iconv_frame.
Qed.

Lemma fromUTF8_loop_frame fuel : ∀ cd inbuf outbuf left target w cd',
  cd' ≠ cd →
  descriptors (fromUTF8_loop E sizeof_charT fuel cd inbuf outbuf left target w).2 !! cd'
    = descriptors w !! cd'.
Proof.
  induction fuel as [|fuel IH]; intros cd inbuf outbuf left target w cd' Hne; [done|].
  rewrite fromUTF8_loop_S. cbn zeta.
  destruct (status _) as [k|errno]; [|destruct (decide (errno = Errno.E2BIG))];
    cbn [snd]; rewrite ?IH by done; by rewrite iconv_frame.
Qed.






Lemma same_sessions_is_Some w w' cd :
  same_sessions w w' → is_Some (descriptors w' !! cd) ↔ is_Some (descriptors w !! cd).
Proof.
  intros (_ & _ & Hopen). rewrite !is_open_is_Some.
  split; intros (tc & fc & H); exists tc, fc; by apply Hopen.
Qed.

(** X7: a conversion on a thread that holds a pair reuses it: it opens and
    closes no descriptor and registers nothing (the open handles, the
    registry and the handle counter are as before), its first request resets
    the descriptor of its direction (the second of the pair for [toUTF8],
    the first for [fromUTF8]), every later one is a request of the retry
    loop, and no other descriptor changes. *)
Theorem conversions_reuse_session fuel this t a b source buf target w :
  registry_ok E this w → specific w !! t = Some (a, b) →
  let to := (toUTF8 E P sizeof_charT fuel this t source buf w).2 in
  let from := (fromUTF8 E P sizeof_charT fuel this t source target w).2 in
  (same_sessions w to
   ∧ (∀ cd, cd ≠ b → descriptors to !! cd = descriptors w !! cd)
   ∧ ∃ evs, new_events w to = EvReset b :: evs ∧ loop_events evs = evs)
  ∧ (same_sessions w from
     ∧ (∀ cd, cd ≠ a → descriptors from !! cd = descriptors w !! cd)
     ∧ ∃ evs, new_events w from = EvReset a :: evs ∧ loop_events evs = evs).
Proof.
  intros Hok Ht.
  destruct (reg_pairs E this w Hok t a b Ht) as (_ & [sa Ha] & [sb Hb]).
  pose proof (getDescriptors_registered E P this t w _ Ht) as Hget.
  cbn zeta. split.
  - rewrite toUTF8_unfold, Hget. cbn [snd].
    set (inbuf := take _ source).
    assert (Hlog : log (iconv_reset E b w).2 = rev [EvReset b] ++ log w).
    { unfold iconv_reset. by rewrite Hb. }
    destruct (toUTF8_loop_run E fuel b inbuf None buf (iconv_reset E b w).2)
      as (evs & Hlog' & Hss & _ & Hloop & _).
    split_and!.
    + eapply same_sessions_trans; [apply iconv_reset_same_sessions|exact Hss].
    + intros cd Hcd. by rewrite toUTF8_loop_frame, iconv_reset_frame.
    + exists evs. split; [|done].
      change (EvReset b :: evs) with ([EvReset b] ++ evs).
      apply new_events_app. by apply (log_extends_trans _ _ _ _ _ Hlog Hlog').
  - rewrite fromUTF8_unfold, Hget. cbn [snd fst].
    assert (Hlog : log (iconv_reset E a w).2 = rev [EvReset a] ++ log w).
    { unfold iconv_reset. by rewrite Ha. }
    destruct (fromUTF8_loop_run E sizeof_charT fuel a source None 0 target (iconv_reset E a w).2)
      as (evs & Hlog' & Hss & Hloop & _).
    pose proof (fromUTF8_loop_frame fuel a source None 0 target (iconv_reset E a w).2) as Hfr.
    destruct (fromUTF8_loop E sizeof_charT fuel a source None 0 target (iconv_reset E a w).2)
      as [[r|e|] w3]; cbn [snd] in *.
    + split_and!.
      * eapply same_sessions_trans; [apply iconv_reset_same_sessions|].
        eapply same_sessions_trans; [exact Hss|apply same_sessions_emit].
      * intros cd Hcd. cbn. by rewrite Hfr, iconv_reset_frame.
      * eexists (evs ++ [EvResize _]). split.
        -- change (EvReset a :: evs ++ ?l) with (([EvReset a] ++ evs) ++ l).
           apply new_events_app. cbn [emit log].
           rewrite (log_extends_trans _ _ _ _ _ Hlog Hlog').
           by rewrite !rev_app_distr.
        -- by rewrite loop_events_app, Hloop.
    + split_and!.
      * eapply same_sessions_trans; [apply iconv_reset_same_sessions|exact Hss].
      * intros cd Hcd. by rewrite Hfr, iconv_reset_frame.
      * exists evs. split; [|done].
        change (EvReset a :: evs) with ([EvReset a] ++ evs).
        apply new_events_app. by apply (log_extends_trans _ _ _ _ _ Hlog Hlog').
    + split_and!.
      * eapply same_sessions_trans; [apply iconv_reset_same_sessions|exact Hss].
      * intros cd Hcd. by rewrite Hfr, iconv_reset_frame.
      * exists evs. split; [|done].
        change (EvReset a :: evs) with ([EvReset a] ++ evs).
        apply new_events_app. by apply (log_extends_trans _ _ _ _ _ Hlog Hlog').
Qed.

(** X5: what a successful [toUTF8] returns: the cursor is the number of
    bytes the engine stored during the call, it lies within the buffer, and
    the buffer holds exactly these bytes, in order, before the cursor:
    growing the buffer in a retry loses none of them. *)
Theorem toUTF8_output fuel this t source buf w cursor buf' w' :
  engine_bounded E →
  toUTF8 E P sizeof_charT fuel this t source buf w = (Ret (cursor, buf'), w') →
  let D := decoded (new_events w w') in
  cursor = length D ∧ cursor ≤ length buf' ∧ take cursor buf' = D.
Proof.
  intros Hb Hrun. cbn zeta.
  pose proof (toUTF8_unfold E P sizeof_charT fuel this t source buf w) as Hun.
  destruct (getDescriptors E P this t w) as [[cdp|e|] w1] eqn:Hget;
    [|by rewrite Hrun in Hun|by rewrite Hrun in Hun].
  destruct (toUTF8_new_events E P sizeof_charT fuel this t source buf w cdp w1 Hget)
    as (evs0 & Hq & Hlog0 & Hnew).
  cbn zeta in Hnew. rewrite Hrun in Hun, Hnew. cbn [snd] in Hnew.
  set (inbuf := take _ source) in *.
  set (w2 := (iconv_reset E cdp.2 w1).2) in *.
  destruct (toUTF8_loop_run E fuel cdp.2 inbuf None buf w2)
    as (evs & Hlog & _ & _ & _ & _ & Hcontent).
  rewrite <- Hun in Hlog, Hcontent. cbn [fst snd] in *.
  rewrite <- Hun in Hnew. cbn [snd] in Hnew.
  rewrite (new_events_app w2 w' evs Hlog) in Hnew.
  rewrite Hnew, decoded_app, (pool_only_decoded _ Hq). cbn [app].
  destruct (Hcontent [] eq_refl eq_refl cursor buf' eq_refl) as [Hc Htake].
  cbn [app] in Hc, Htake.
  split_and!; [done| |done].
  rewrite Hc. apply take_full_length. by rewrite <- Hc.
Qed.

End Frames.

(** ** The retry loops, run by run *)

Section RetryRuns.
Context (E : Engine) (P : Pthread) (sizeof_charT : nat).
Implicit Types (this : IconvStringConverter) (w : World E).

Lemma call_engine_descriptor w cd d inbuf n :
  descriptors w !! cd = Some d →
  call_engine E w cd inbuf n = iconv_convert E (tocode d) (fromcode d) (state d) inbuf n.
Proof. intros H. unfold call_engine. by rewrite H. Qed.

Lemma iconv_emit_descriptor cd inbuf o n ev w d :
  descriptors w !! cd = Some d →
  descriptors (iconv E cd inbuf o n (emit ev w)).2 !! cd
    = Some (Descriptor (tocode d) (fromcode d)
              (shift_after (iconv_convert E (tocode d) (fromcode d) (state d) inbuf n))).
Proof. intros H. by apply (iconv_descriptor E cd inbuf o n (emit ev w) d). Qed.

Lemma toUTF8_loop_retry_run fuel : ∀ cd inbuf outbuf buf w d,
  descriptors w !! cd = Some d →
  ∃ evs,
    log (toUTF8_loop E fuel cd inbuf outbuf buf w).2 = rev evs ++ log w
    ∧ loop_events evs = evs
    ∧ retry_run E (tocode d) (fromcode d) cd fuel (state d) inbuf outbuf evs
                (toUTF8_loop E fuel cd inbuf outbuf buf w).1.
Proof.
  induction fuel as [|fuel IH]; intros cd inbuf outbuf buf w d Hd.
  { exists []. split_and!; [done|done|constructor]. }
  rewrite toUTF8_loop_S. cbn zeta.
  set (howMany := length inbuf `max` 4).
  set (granted := default 0 outbuf).
  rewrite (call_engine_descriptor w cd d inbuf howMany Hd).
  set (r := iconv_convert E (tocode d) (fromcode d) (state d) inbuf howMany).
  set (G := EvGetMoreBytes howMany outbuf granted).
  set (w2 := (iconv E cd inbuf granted howMany (emit G w)).2).
  assert (Hlog2 : log w2 = EvIconv cd inbuf granted howMany (consumed r) (produced r) (status r)
                             :: G :: log w).
  { pose proof (call_engine_descriptor w cd d inbuf howMany Hd) as Hr. fold r in Hr.
    rewrite <- Hr. reflexivity. }
  pose proof (iconv_emit_descriptor cd inbuf granted howMany G w d Hd) as Hd2.
  fold w2 r in Hd2.
  destruct (status r) as [k|errno] eqn:Hst.
  - exists [G; EvIconv cd inbuf granted howMany (consumed r) (produced r) (IconvCount k)].
    cbn [fst snd]. split_and!; [by rewrite Hlog2 | done |].
    by apply (retry_run_converted E (tocode d) (fromcode d) cd fuel (state d) inbuf outbuf k).
  - destruct (decide (errno = Errno.E2BIG)) as [->|Hne].
    + destruct (IH cd (drop (consumed r) inbuf) (Some (granted + length (produced r)))
                   (write_at granted (produced r) (resize_bytes (granted + howMany) buf))
                   w2 _ Hd2) as (evs & Hlog & Hloop & Hrun).
      exists (G :: EvIconv cd inbuf granted howMany (consumed r) (produced r)
                     (IconvFail Errno.E2BIG) :: evs).
      split_and!.
      * rewrite Hlog, Hlog2. cbn. rewrite <- !app_assoc. reflexivity.
      * rewrite !loop_events_cons. cbn. by rewrite Hloop.
      * by apply (retry_run_again E (tocode d) (fromcode d) cd fuel (state d) inbuf outbuf).
    + exists [G; EvIconv cd inbuf granted howMany (consumed r) (produced r) (IconvFail errno)].
      cbn [fst snd]. split_and!; [by rewrite Hlog2 | done |].
      by apply (retry_run_failed E (tocode d) (fromcode d) cd fuel (state d) inbuf outbuf errno).
Qed.

Lemma retry_run_requests tocode fromcode cd fuel s inbuf outbuf evs res :
  retry_run E tocode fromcode cd fuel s inbuf outbuf evs res →
  ∀ hM fU gr, EvGetMoreBytes hM fU gr ∈ evs → 4 ≤ hM.
Proof.
  induction 1; intros hM fU gr Hin.
  - by apply elem_of_nil in Hin.
  - apply elem_of_cons in Hin as [[= -> _ _]|Hin]; [subst howMany; lia|].
    apply list_elem_of_singleton in Hin. done.
  - apply elem_of_cons in Hin as [[= -> _ _]|Hin]; [subst howMany; lia|].
    apply list_elem_of_singleton in Hin. done.
  - apply elem_of_cons in Hin as [[= -> _ _]|Hin]; [subst howMany; lia|].
    apply elem_of_cons in Hin as [?|Hin]; [done|]. eauto.
Qed.

(** C5: the requests of [toUTF8] once it holds its descriptors, for as many
    iterations as the model follows: every iteration of the retry loop asks
    the buffer for [max(inbytesleft, 4)] bytes, hence for at least 4, from
    the current write cursor (the null cursor in the first iteration,
    afterwards where the engine stopped storing), and then runs the engine on
    the input that is left, with that budget, where the buffer granted room.
    What the engine answers decides whether the loop returns, throws or goes
    round once more, and the loop requests nothing else.  A call that does
    not get its descriptors makes no such request. *)
Theorem toUTF8_requests fuel this t source buf w :
  registry_ok E this w → validated E this →
  let run := toUTF8 E P sizeof_charT fuel this t source buf w in
  let inbuf := take (length source / sizeof_charT * sizeof_charT) source in
  match (getDescriptors E P this t w).1 with
  | Ret cdp =>
      retry_run E externalCode (_internalCode this) cdp.2 fuel (shift_initial E) inbuf None
                (loop_events (new_events w run.2)) run.1
  | _ => loop_events (new_events w run.2) = []
  end
  ∧ ∀ howMany firstUnused granted,
      EvGetMoreBytes howMany firstUnused granted ∈ new_events w run.2 → 4 ≤ howMany.
Proof.
  intros Hok Hv. cbn zeta.
  assert (Hreq : ∀ evs0 evs howMany firstUnused granted,
             pool_only evs0 →
             EvGetMoreBytes howMany firstUnused granted ∈ evs0 ++ evs →
             EvGetMoreBytes howMany firstUnused granted ∈ evs).
  { intros evs0 evs h f g Hq Hin. apply elem_of_app in Hin as [Hin|Hin]; [|done].
    unfold pool_only in Hq. rewrite Forall_forall in Hq. by apply Hq in Hin. }
  destruct (getDescriptors E P this t w) as [[cdp|e|] w1] eqn:Hget; cbn [fst].
  - destruct (toUTF8_acquired E P sizeof_charT fuel this t source buf w cdp w1 Hok Hv Hget)
      as (Hrun & Hd & _).
    destruct (toUTF8_new_events E P sizeof_charT fuel this t source buf w cdp w1 Hget)
      as (evs0 & Hq0 & _ & Hnew).
    cbn zeta in Hnew. rewrite Hnew, Hrun.
    set (w2 := (iconv_reset E cdp.2 w1).2) in *.
    set (inbuf := take _ source) in *.
    destruct (toUTF8_loop_retry_run fuel cdp.2 inbuf None buf w2 _ Hd)
      as (evs & Hlog & Hloop & Hrr). cbn [tocode fromcode state] in Hrr.
    rewrite (new_events_app w2 _ evs Hlog).
    rewrite loop_events_app, (pool_only_loop_events _ Hq0), Hloop. cbn [app].
    split; [exact Hrr|].
    intros h f g Hin. apply (Hreq _ _ _ _ _ Hq0) in Hin.
    by apply (retry_run_requests _ _ _ _ _ _ _ _ _ Hrr h f g).
  - rewrite toUTF8_unfold, Hget. cbn [snd].
    destruct (getDescriptors_fails E P this t w e w1 Hget) as (evs0 & Hq0 & ->).
    split; [by apply pool_only_loop_events|].
    intros h f g Hin. unfold pool_only in Hq0. rewrite Forall_forall in Hq0.
    by apply Hq0 in Hin.
  - by apply getDescriptors_fuel in Hget.
Qed.

End RetryRuns.

Section Endings.
Context (E : Engine) (P : Pthread) (sizeof_charT : nat).
Implicit Types (this : IconvStringConverter) (w : World E).

Lemma toUTF8_loop_ends fuel : ∀ cd inbuf outbuf buf w d unspent,
  descriptors w !! cd = Some d →
  ends_as E (tocode d) (fromcode d) toUTF8_window fuel (state d) inbuf unspent
          (ending (toUTF8_loop E fuel cd inbuf outbuf buf w).1).
Proof.
  induction fuel as [|fuel IH]; intros cd inbuf outbuf buf w d unspent Hd; [constructor|].
  rewrite toUTF8_loop_S. cbn zeta.
  set (howMany := length inbuf `max` 4).
  set (granted := default 0 outbuf).
  rewrite (call_engine_descriptor E w cd d inbuf howMany Hd).
  pose proof (iconv_emit_descriptor E cd inbuf granted howMany
                (EvGetMoreBytes howMany outbuf granted) w d Hd) as Hd2.
  set (r := iconv_convert E (tocode d) (fromcode d) (state d) inbuf howMany) in *.
  destruct (status r) as [k|errno] eqn:Hst.
  - by apply (ends_returning E _ _ _ fuel (state d) inbuf unspent k).
  - destruct (decide (errno = Errno.E2BIG)) as [->|Hne].
    + apply (ends_retrying E _ _ _ fuel (state d) inbuf unspent); [exact Hst|].
      by apply (IH cd _ _ _ _ _ _ Hd2).
    + by apply (ends_throwing E _ _ _ fuel (state d) inbuf unspent errno).
Qed.

Lemma fromUTF8_loop_ends fuel : ∀ cd inbuf outbuf unspent target w d,
  descriptors w !! cd = Some d →
  ends_as E (tocode d) (fromcode d) (fromUTF8_window sizeof_charT) fuel (state d) inbuf unspent
          (ending (fromUTF8_loop E sizeof_charT fuel cd inbuf outbuf unspent target w).1).
Proof.
  induction fuel as [|fuel IH]; intros cd inbuf outbuf unspent target w d Hd; [constructor|].
  rewrite fromUTF8_loop_S. cbn zeta.
  set (bytesused := default 0 outbuf).
  set (increment := length inbuf `max` 4).
  set (newsize := size sizeof_charT target + increment).
  set (budget := unspent + increment * sizeof_charT).
  rewrite (call_engine_descriptor E w cd d inbuf budget Hd).
  pose proof (iconv_emit_descriptor E cd inbuf bytesused budget (EvResize newsize) w d Hd)
    as Hd2.
  set (r := iconv_convert E (tocode d) (fromcode d) (state d) inbuf budget) in *.
  destruct (status r) as [k|errno] eqn:Hst.
  - by apply (ends_returning E _ _ _ fuel (state d) inbuf unspent k).
  - destruct (decide (errno = Errno.E2BIG)) as [->|Hne].
    + apply (ends_retrying E _ _ _ fuel (state d) inbuf unspent); [exact Hst|].
      by apply (IH cd _ _ _ _ _ _ Hd2).
    + by apply (ends_throwing E _ _ _ fuel (state d) inbuf unspent errno).
Qed.

(** C8: how engine failures reach the caller of a conversion that holds its
    descriptors.  The engine is run on the input from its initial shift
    state, with the room the loop offers; when it fails with an error number
    other than E2BIG, [toUTF8] and [fromUTF8] alike throw
    IllegalConversionException, whose text is [strerror(errno)] when [errno]
    is not zero and Unknown error when it is; E2BIG never reaches the caller:
    the engine is run again on what is left; and the call returns only when
    the engine converted. *)
Theorem engine_failures_surface fuel this t source buf target w cdp w1 :
  registry_ok E this w → validated E this →
  getDescriptors E P this t w = (Ret cdp, w1) →
  ends_as E externalCode (_internalCode this) toUTF8_window fuel (shift_initial E)
          (take (length source / sizeof_charT * sizeof_charT) source) 0
          (ending (toUTF8 E P sizeof_charT fuel this t source buf w).1)
  ∧ ends_as E (_internalCode this) externalCode (fromUTF8_window sizeof_charT) fuel
            (shift_initial E) source 0
            (ending (fromUTF8 E P sizeof_charT fuel this t source target w).1).
Proof.
  intros Hok Hv Hget. split.
  - destruct (toUTF8_acquired E P sizeof_charT fuel this t source buf w cdp w1 Hok Hv Hget)
      as (-> & Hd & _).
    by apply (toUTF8_loop_ends fuel cdp.2 _ None buf _ _ 0 Hd).
  - destruct (fromUTF8_acquired E P this t w cdp w1 Hok Hv Hget) as (Hd & _).
    rewrite fromUTF8_unfold, Hget.
    pose proof (fromUTF8_loop_ends fuel cdp.1 source None 0 target _ _ Hd) as Hends.
    cbn [tocode fromcode state] in Hends.
    by destruct (fromUTF8_loop E sizeof_charT fuel cdp.1 source None 0 target
                   (iconv_reset E cdp.1 w1).2) as [[r|e|] w3].
Qed.

End Endings.

Section Termination.
Context (E : Engine) (P : Pthread) (sizeof_charT : nat).
Implicit Types (this : IconvStringConverter) (w : World E).




End Termination.

Section Growth.
Context (E : Engine) (P : Pthread) (sizeof_charT : nat).
Implicit Types (this : IconvStringConverter) (w : World E).

(** The run of the loop of [fromUTF8], and what it returns. *)
Lemma fromUTF8_loop_growth_run fuel : ∀ cd inbuf outbuf left target chars w d,
  engine_bounded E → 0 < sizeof_charT →
  length target = chars * sizeof_charT →
  default 0 outbuf + left ≤ chars * sizeof_charT →
  descriptors w !! cd = Some d →
  ∃ evs res,
    log (fromUTF8_loop E sizeof_charT fuel cd inbuf outbuf left target w).2 = rev evs ++ log w
    ∧ loop_events evs = evs
    ∧ growth_run E sizeof_charT (tocode d) (fromcode d) cd fuel (state d) inbuf
                 (default 0 outbuf) left chars evs res
    ∧ match (fromUTF8_loop E sizeof_charT fuel cd inbuf outbuf left target w).1, res with
      | Ret (unspent, target'), Ret (total, unspent') =>
          unspent = unspent' ∧ length target' = total * sizeof_charT
      | Throw e, Throw e' => e = e'
      | OutOfFuel, OutOfFuel => True
      | _, _ => False
      end.
Proof.
  induction fuel as [|fuel IH]; intros cd inbuf outbuf left target chars w d Hb Hsz Hlen Hfit Hd.
  { exists [], OutOfFuel. refine (conj _ (conj _ (conj _ _))); [done|done|constructor|done]. }
  rewrite fromUTF8_loop_S. cbn zeta.
  set (used := default 0 outbuf) in *.
  set (increment := length inbuf `max` 4).
  assert (Hsize : size sizeof_charT target = chars).
  { unfold size. rewrite Hlen. apply Nat.div_mul. lia. }
  rewrite Hsize.
  set (budget := left + increment * sizeof_charT).
  pose proof (call_engine_descriptor E w cd d inbuf budget Hd) as Hr.
  destruct (call_engine_bounded E w cd inbuf budget Hb) as [Hcons Hprod].
  rewrite Hr in Hcons, Hprod.
  set (R := EvResize (chars + increment)).
  set (w2 := (iconv E cd inbuf used budget (emit R w)).2).
  assert (Hlog2 : log w2 = EvIconv cd inbuf used budget
                             (consumed (call_engine E w cd inbuf budget))
                             (produced (call_engine E w cd inbuf budget))
                             (status (call_engine E w cd inbuf budget))
                             :: R :: log w) by reflexivity.
  pose proof (iconv_emit_descriptor E cd inbuf used budget R w d Hd) as Hd2. fold w2 in Hd2.
  rewrite Hr in Hlog2 |- *.
  set (r := iconv_convert E (tocode d) (fromcode d) (state d) inbuf budget) in *.
  assert (Hfit2 : used + budget ≤ (chars + increment) * sizeof_charT) by (unfold budget; nia).
  assert (Hlen2 : length (write_at used (produced r)
                            (resize sizeof_charT (chars + increment) target))
                  = (chars + increment) * sizeof_charT).
  { unfold resize. rewrite length_write_at; rewrite length_resize_bytes; lia. }
  destruct (status r) as [k|errno] eqn:Hst.
  - exists [R; EvIconv cd inbuf used budget (consumed r) (produced r) (IconvCount k)],
           (Ret (chars + increment, budget - length (produced r))).
    cbn [fst snd]. refine (conj _ (conj _ (conj _ _))); [by rewrite Hlog2 | done | | done].
    by apply (growth_run_converted E sizeof_charT (tocode d) (fromcode d) cd fuel (state d)
                inbuf used left chars k).
  - destruct (decide (errno = Errno.E2BIG)) as [->|Hne].
    + destruct (IH cd (drop (consumed r) inbuf) (Some (used + length (produced r)))
                   (budget - length (produced r))
                   (write_at used (produced r) (resize sizeof_charT (chars + increment) target))
                   (chars + increment) w2
                   (Descriptor (tocode d) (fromcode d) (shift_after r)) Hb Hsz Hlen2)
        as (evs & res & Hlog & Hloop & Hrun & Hres); [cbn; lia | exact Hd2 |].
      exists (R :: EvIconv cd inbuf used budget (consumed r) (produced r)
                     (IconvFail Errno.E2BIG) :: evs), res.
      refine (conj _ (conj _ (conj _ _))).
      * rewrite Hlog, Hlog2. cbn. rewrite <- !app_assoc. reflexivity.
      * rewrite !loop_events_cons. cbn. by rewrite Hloop.
      * by apply (growth_run_again E sizeof_charT (tocode d) (fromcode d) cd fuel (state d)
                    inbuf used left chars).
      * exact Hres.
    + exists [R; EvIconv cd inbuf used budget (consumed r) (produced r) (IconvFail errno)],
             (Throw (IllegalConversionException (error_text E errno))).
      cbn [fst snd]. refine (conj _ (conj _ (conj _ _))); [by rewrite Hlog2 | done | | done].
      by apply (growth_run_failed E sizeof_charT (tocode d) (fromcode d) cd fuel (state d)
                  inbuf used left chars errno).
Qed.

(** X8: the run of [fromUTF8] converting into a destination of whole
    characters, for as many iterations as the model follows: every iteration
    grows the destination by [max(inbytesleft, 4)] characters and calls the
    engine on the input left, at the offset where it stopped storing, with
    the unspent budget plus the bytes of the increment, and offset plus
    budget never pass the end of the grown destination.  What the engine
    answers decides whether the loop ends, throws or goes round once more; a
    call that returns then trims the destination by the characters the
    unspent budget amounts to, which is the size of the result.  A call that
    does not get its descriptors makes no such request. *)
Theorem fromUTF8_growth fuel this t source target chars w :
  registry_ok E this w → validated E this →
  engine_bounded E → 0 < sizeof_charT → length target = chars * sizeof_charT →
  let run := fromUTF8 E P sizeof_charT fuel this t source target w in
  match (getDescriptors E P this t w).1 with
  | Ret cdp =>
      ∃ evs res,
        growth_run E sizeof_charT (_internalCode this) externalCode cdp.1 fuel
                   (shift_initial E) source 0 0 chars evs res
        ∧ match res with
          | Ret (total, unspent) =>
              loop_events (new_events w run.2)
                = evs ++ [EvResize (total - unspent / sizeof_charT)]
              ∧ ∃ target', run.1 = Ret target'
                           ∧ size sizeof_charT target' = total - unspent / sizeof_charT
          | Throw e => loop_events (new_events w run.2) = evs ∧ run.1 = Throw e
          | OutOfFuel => loop_events (new_events w run.2) = evs ∧ run.1 = OutOfFuel
          end
  | _ => loop_events (new_events w run.2) = []
  end.
Proof.
  intros Hok Hv Hb Hsz Hlen. cbn zeta.
  destruct (getDescriptors E P this t w) as [[cdp|e|] w1] eqn:Hget; cbn [fst].
  - destruct (fromUTF8_acquired E P this t w cdp w1 Hok Hv Hget) as (Hd & _).
    destruct (fromUTF8_new_events E P sizeof_charT fuel this t source target w cdp w1 Hget)
      as (evs0 & Hq & Hlog0 & Hnew). cbn zeta in Hnew.
    rewrite Hnew, fromUTF8_unfold, Hget.
    set (w2 := (iconv_reset E cdp.1 w1).2) in *.
    destruct (fromUTF8_loop_growth_run fuel cdp.1 source None 0 target chars w2
                (Descriptor (_internalCode this) externalCode (shift_initial E))
                Hb Hsz Hlen) as (evs & res & Hlog & Hloop & Hrun & Hres); [cbn; lia | exact Hd |].
    cbn [tocode fromcode state default] in Hrun.
    rewrite (new_events_app w2 _ evs Hlog).
    exists evs, res. split; [exact Hrun|].
    rewrite !loop_events_app, (pool_only_loop_events _ Hq), Hloop. cbn [app].
    destruct (fromUTF8_loop E sizeof_charT fuel cdp.1 source None 0 target w2)
      as [[[unspent target']|e|] w3]; destruct res as [[total unspent']|e'|];
      cbn [fst snd] in *; try done.
    + destruct Hres as [<- Hlen']. unfold size at 1 2. rewrite Hlen', Nat.div_mul by lia.
      split; [by rewrite loop_events_cons|].
      eexists. split; [reflexivity|].
      unfold size, resize. rewrite length_resize_bytes. apply Nat.div_mul. lia.
    + subst e'. by rewrite app_nil_r.
    + by rewrite app_nil_r.
  - rewrite fromUTF8_unfold, Hget. cbn [snd].
    destruct (getDescriptors_fails E P this t w e w1 Hget) as (evs0 & Hq & ->).
    by apply pool_only_loop_events.
  - by apply getDescriptors_fuel in Hget.
Qed.

End Growth.

(** ** Conversions of text the engine converts *)

Section Converts.
Context (E : Engine) (P : Pthread) (sizeof_charT : nat).
Implicit Types (this : IconvStringConverter) (w : World E).




End Converts.

(** ** Descriptors without a registered pair *)

Section Leaks.
Context (E : Engine) (P : Pthread) (sizeof_charT : nat).
Implicit Types (this : IconvStringConverter) (w : World E).

Lemma owns_from_same_sessions base w w' :
  same_sessions w w' → owns_from base w → owns_from base w'.
Proof.
  intros Hss (Hn & Hp & Ho). pose proof Hss as (Hn' & Hs' & _).
  split_and!.
  - by rewrite Hn'.
  - intros t p. rewrite Hs'. apply Hp.
  - intros cd Hcd Hsome. rewrite Hs'. apply Ho; [done|].
    by apply (same_sessions_is_Some E w w' cd Hss).
Qed.

(** The part of the invariant that calls keep: the registry is in order,
    the handles from [base] on are owned, and those below [base] are as in
    [w0]. *)
Lemma getDescriptors_owns this t base (w0 w : World E) :
  (∀ n, setspecific_rs P n = 0%Z) →
  registry_ok E this w → validated E this → owns_from base w →
  (∀ cd, (cd < base)%Z → descriptors w !! cd = descriptors w0 !! cd) →
  ∃ cdp w1,
    getDescriptors E P this t w = (Ret cdp, w1)
    ∧ specific w1 !! t = Some cdp
    ∧ owns_from base w1
    ∧ (∀ cd, (cd < base)%Z → descriptors w1 !! cd = descriptors w0 !! cd).
Proof.
  intros Hset Hok Hv (Hn & Hp & Ho) Hlow. pose proof Hok as [[Hz _] _ _].
  destruct (specific w !! t) as [cdp|] eqn:Ht.
  { exists cdp, w. by rewrite (getDescriptors_registered E P this t w cdp Ht). }
  rewrite (getDescriptors_unregistered E P this t w Hv Hz Ht). cbn zeta.
  rewrite Hset.
  destruct (decide (0%Z ≠ 0%Z)) as [?|_]; [done|].
  destruct (decide (0%Z = 0%Z)) as [_|?]; [|done].
  eexists _, _. split; [reflexivity|]. cbn.
  split_and!.
  - by rewrite lookup_insert_eq.
  - split_and!; cbn.
    + lia.
    + intros u p Hu. apply lookup_insert_Some in Hu as [[_ <-]|[_ Hu]]; cbn; [lia|by apply (Hp u)].
    + intros cd Hcd Hsome.
      destruct (decide (cd = (next_cd w + 1)%Z)) as [->|H1].
      { exists t, (next_cd w, (next_cd w + 1)%Z). rewrite lookup_insert_eq. by split; [|right]. }
      destruct (decide (cd = next_cd w)) as [->|H2].
      { exists t, (next_cd w, (next_cd w + 1)%Z). rewrite lookup_insert_eq. by split; [|left]. }
      rewrite !lookup_insert_ne in Hsome by done.
      destruct (Ho cd Hcd Hsome) as (u & p & Hu & Hin).
      exists u, p. split; [|done].
      rewrite lookup_insert_ne; [done|]. intros <-. by rewrite Ht in Hu.
  - intros cd Hcd. rewrite !lookup_insert_ne by lia. by apply Hlow.
Qed.

Lemma thread_exit_owns this t base (w0 w : World E) :
  registry_ok E this w → owns_from base w →
  (∀ cd, (cd < base)%Z → descriptors w !! cd = descriptors w0 !! cd) →
  owns_from base (thread_exit E t w).2
  ∧ (∀ cd, (cd < base)%Z → descriptors (thread_exit E t w).2 !! cd = descriptors w0 !! cd).
Proof.
  intros Hok (Hn & Hp & Ho) Hlow.
  destruct (specific w !! t) as [[a b]|] eqn:Ht.
  2: { unfold thread_exit, bind, pthread_getspecific. rewrite Ht. by cbn. }
  rewrite (thread_exit_registered E this t a b w Hok Ht). cbn [snd].
  destruct (Hp t (a, b) Ht) as [Ha Hb]. cbn in Ha, Hb.
  split; [split_and!|]; cbn.
  - done.
  - intros u p Hu. apply lookup_delete_Some in Hu as [_ Hu]. by apply (Hp u).
  - intros cd Hcd [d Hsome].
    apply lookup_delete_Some in Hsome as [Hcb Hsome].
    apply lookup_delete_Some in Hsome as [Hca Hsome].
    destruct (Ho cd Hcd (mk_is_Some _ _ Hsome)) as (u & p & Hu & Hin).
    exists u, p. split; [|done].
    rewrite lookup_delete_ne; [done|]. intros <-.
    rewrite Ht in Hu. injection Hu as <-. cbn in Hin. by destruct Hin.
  - intros cd Hcd. rewrite !lookup_delete_ne by lia. by apply Hlow.
Qed.

Lemma toUTF8_owns fuel this t source buf base (w0 w : World E) :
  (∀ n, setspecific_rs P n = 0%Z) →
  registry_ok E this w → validated E this → owns_from base w →
  (∀ cd, (cd < base)%Z → descriptors w !! cd = descriptors w0 !! cd) →
  let w' := (toUTF8 E P sizeof_charT fuel this t source buf w).2 in
  owns_from base w' ∧ (∀ cd, (cd < base)%Z → descriptors w' !! cd = descriptors w0 !! cd).
Proof.
  intros Hset Hok Hv Hown Hlow. cbn zeta.
  destruct (getDescriptors_owns this t base w0 w Hset Hok Hv Hown Hlow)
    as (cdp & w1 & Hget & Ht1 & Hown1 & Hlow1).
  rewrite toUTF8_unfold, Hget.
  set (inbuf := take _ source).
  destruct (toUTF8_loop_run E fuel cdp.2 inbuf None buf (iconv_reset E cdp.2 w1).2)
    as (evs & _ & Hss & _).
  destruct Hown1 as (Hn1 & Hp1 & Ho1). destruct (Hp1 t cdp Ht1) as [_ Hb].
  split.
  - eapply owns_from_same_sessions; [exact Hss|].
    eapply owns_from_same_sessions; [apply iconv_reset_same_sessions|done].
  - intros cd Hcd.
    rewrite toUTF8_loop_frame, iconv_reset_frame by lia. by apply Hlow1.
Qed.

Lemma fromUTF8_owns fuel this t source target base (w0 w : World E) :
  (∀ n, setspecific_rs P n = 0%Z) →
  registry_ok E this w → validated E this → owns_from base w →
  (∀ cd, (cd < base)%Z → descriptors w !! cd = descriptors w0 !! cd) →
  let w' := (fromUTF8 E P sizeof_charT fuel this t source target w).2 in
  owns_from base w' ∧ (∀ cd, (cd < base)%Z → descriptors w' !! cd = descriptors w0 !! cd).
Proof.
  intros Hset Hok Hv Hown Hlow. cbn zeta.
  destruct (getDescriptors_owns this t base w0 w Hset Hok Hv Hown Hlow)
    as (cdp & w1 & Hget & Ht1 & Hown1 & Hlow1).
  rewrite fromUTF8_unfold, Hget.
  destruct (fromUTF8_loop_run E sizeof_charT fuel cdp.1 source None 0 target
              (iconv_reset E cdp.1 w1).2) as (evs & _ & Hss & _).
  pose proof (fromUTF8_loop_frame E sizeof_charT fuel cdp.1 source None 0 target
                (iconv_reset E cdp.1 w1).2) as Hfr.
  pose proof Hown1 as (Hn1 & Hp1 & Ho1). destruct (Hp1 t cdp Ht1) as [Ha _].
  assert (Hown3 : owns_from base
            (fromUTF8_loop E sizeof_charT fuel cdp.1 source None 0 target
               (iconv_reset E cdp.1 w1).2).2).
  { eapply owns_from_same_sessions; [exact Hss|].
    eapply owns_from_same_sessions; [apply iconv_reset_same_sessions|done]. }
  destruct (fromUTF8_loop E sizeof_charT fuel cdp.1 source None 0 target
              (iconv_reset E cdp.1 w1).2) as [[r|e|] w3]; cbn [snd] in *.
  - split.
    + eapply owns_from_same_sessions; [apply same_sessions_emit|done].
    + intros cd Hcd. cbn. rewrite Hfr, iconv_reset_frame by lia. by apply Hlow1.
  - split; [done|]. intros cd Hcd. rewrite Hfr, iconv_reset_frame by lia. by apply Hlow1.
  - split; [done|]. intros cd Hcd. rewrite Hfr, iconv_reset_frame by lia. by apply Hlow1.
Qed.

Lemma run_calls_owns this base (w0 : World E) cs : ∀ w,
  (∀ n, setspecific_rs P n = 0%Z) →
  registry_ok E this w → validated E this → owns_from base w →
  (∀ cd, (cd < base)%Z → descriptors w !! cd = descriptors w0 !! cd) →
  let w' := run_calls E P sizeof_charT this cs w in
  owns_from base w' ∧ (∀ cd, (cd < base)%Z → descriptors w' !! cd = descriptors w0 !! cd).
Proof.
  induction cs as [|c cs IH]; intros w Hset Hok Hv Hown Hlow; [done|].
  cbn zeta. unfold run_calls. cbn [foldl]. fold (run_calls E P sizeof_charT this cs).
  assert (Hstep : registry_ok E this (run_call E P sizeof_charT this c w)
                  ∧ owns_from base (run_call E P sizeof_charT this c w)
                  ∧ ∀ cd, (cd < base)%Z →
                      descriptors (run_call E P sizeof_charT this c w) !! cd
                        = descriptors w0 !! cd).
  { destruct c as [t | fuel t source buf | fuel t source target | t]; cbn [run_call].
    - split; [by apply getDescriptors_preserves|].
      destruct (getDescriptors_owns this t base w0 w Hset Hok Hv Hown Hlow)
        as (cdp & w1 & -> & _ & ? & ?). done.
    - split; [by apply toUTF8_preserves|]. by apply toUTF8_owns.
    - split; [by apply fromUTF8_preserves|]. by apply fromUTF8_owns.
    - split; [by apply thread_exit_preserves|]. by apply (thread_exit_owns this). }
  destruct Hstep as (Hok' & Hown' & Hlow'). by apply IH.
Qed.

(** X10: while registration never fails the converter leaks no descriptor:
    in every world reached from a successful construction by calls and
    thread ends, an open descriptor that is in no registered pair was open
    before the construction, and is as it was then. *)
Theorem no_stray_descriptor this cs (w0 w1 : World E) :
  handles_fresh w0 → (∀ n, setspecific_rs P n = 0%Z) →
  IconvStringConverter_new E P (_internalCode this) w0 = (Ret this, w1) →
  let w := run_calls E P sizeof_charT this cs w1 in
  ∀ cd, stray w cd → (cd < next_cd w0)%Z ∧ descriptors w !! cd = descriptors w0 !! cd.
Proof.
  intros Hfresh Hset Hnew w cd [Hopen Hfree].
  destruct (constructed E P this w0 w1 Hfresh Hnew) as [Hv Hok].
  destruct Hv as [H1 H2].
  destruct (construction_validated E P (_internalCode this) w0 Hfresh H1 H2)
    as (wc & Hrun & Hd & _ & Hn & _).
  rewrite Hnew in Hrun.
  destruct (decide (key_create_rs P ≠ 0%Z)) as [?|Hnn]; [done|].
  destruct (decide (key_create_rs P = 0%Z)) as [_|Hrs]; [|by destruct Hnn].
  injection Hrun as _ Hw1.
  assert (Hown : owns_from (next_cd w0) w1).
  { rewrite Hw1. split_and!; cbn.
    - lia.
    - intros t p Ht. by rewrite lookup_empty in Ht.
    - intros c Hc [d Hsome]. rewrite Hd in Hsome.
      destruct Hfresh as [_ Hf]. specialize (Hf c (mk_is_Some _ _ Hsome)). lia. }
  assert (Hlow : ∀ c, (c < next_cd w0)%Z → descriptors w1 !! c = descriptors w0 !! c).
  { intros c _. by rewrite Hw1, <- Hd. }
  destruct (run_calls_owns this (next_cd w0) w0 cs w1 Hset Hok (conj H1 H2) Hown Hlow)
    as [(_ & _ & Ho) Hlow'].
  fold w in Ho, Hlow'.
  destruct (decide (cd < next_cd w0)%Z) as [Hcd|Hcd]; [by split; [|apply Hlow']|].
  destruct (Ho cd ltac:(lia) Hopen) as (t & p & Ht & Hin).
  destruct (Hfree t p Ht) as [? ?]. by destruct Hin.
Qed.

End Leaks.

(** ** Threads *)

Section Threads.
Context (E : Engine) (P : Pthread) (sizeof_charT : nat).
Implicit Types (this : IconvStringConverter) (w : World E).

Lemma getDescriptors_others this t w :
  registry_ok E this w → validated E this →
  let w1 := (getDescriptors E P this t w).2 in
  (∀ u, u ≠ t → specific w1 !! u = specific w !! u)
  ∧ (∀ cd, is_Some (descriptors w !! cd) → descriptors w1 !! cd = descriptors w !! cd).
Proof.
  intros Hok Hv. pose proof Hok as [[Hz Hf] _ _]. cbn zeta.
  destruct (specific w !! t) as [cdp|] eqn:Ht.
  { by rewrite (getDescriptors_registered E P this t w cdp Ht). }
  rewrite (getDescriptors_unregistered E P this t w Hv Hz Ht). cbn.
  split.
  - intros u Hu. destruct (decide (setspecific_rs P (tick w) = 0%Z)); [|done].
    by rewrite lookup_insert_ne.
  - intros cd Hsome. specialize (Hf cd Hsome). by rewrite !lookup_insert_ne by lia.
Qed.

(** X11: threads do not interfere: in a world a constructed converter can
    reach, whatever call another thread makes ([getDescriptors], a
    conversion, or its end), the pair registered for thread [u] stays
    registered and its two descriptors are untouched, shift state
    included. *)
Theorem threads_do_not_interfere this w c u q :
  reachable E P sizeof_charT this w →
  call_thread c ≠ u → specific w !! u = Some q →
  let w' := run_call E P sizeof_charT this c w in
  specific w' !! u = Some q
  ∧ descriptors w' !! q.1 = descriptors w !! q.1
  ∧ descriptors w' !! q.2 = descriptors w !! q.2.
Proof.
  intros Hreach Hc Hu. destruct (reachable_registry_ok E P sizeof_charT this w Hreach) as [Hv Hok].
  destruct q as [qa qb].
  destruct (reg_pairs E this w Hok u qa qb Hu) as (_ & [sa Hqa] & [sb Hqb]).
  cbn zeta. cbn [fst snd].
  assert (Hget : ∀ t, t ≠ u →
            specific (getDescriptors E P this t w).2 !! u = Some (qa, qb)
            ∧ descriptors (getDescriptors E P this t w).2 !! qa = descriptors w !! qa
            ∧ descriptors (getDescriptors E P this t w).2 !! qb = descriptors w !! qb).
  { intros t Ht. destruct (getDescriptors_others this t w Hok Hv) as [Hs Hd].
    split_and!; [by rewrite Hs | apply Hd; by rewrite Hqa | apply Hd; by rewrite Hqb]. }
  destruct c as [t | fuel t source buf | fuel t source target | t]; cbn [call_thread run_call] in *.
  - by apply Hget.
  - destruct (Hget t Hc) as (Hs1 & Ha1 & Hb1). rewrite toUTF8_unfold.
    destruct (getDescriptors E P this t w) as [[cdp|e|] w1] eqn:Hrun; cbn [snd] in *; [|done|done].
    destruct (getDescriptors_acquires E P this t w cdp w1 Hok Hv Hrun) as [Hok1 Ht1].
    destruct (reg_owned E this w1 Hok1 t u cdp (qa, qb) Hc Ht1 Hs1) as (_ & _ & H1 & H2).
    cbn [fst snd] in *.
    set (inbuf := take _ source).
    destruct (toUTF8_loop_run E fuel cdp.2 inbuf None buf (iconv_reset E cdp.2 w1).2)
      as (evs & _ & (_ & Hs & _) & _).
    destruct (iconv_reset_same_sessions E cdp.2 w1) as (_ & Hs' & _).
    rewrite Hs, Hs', !toUTF8_loop_frame, !iconv_reset_frame by done. done.
  - destruct (Hget t Hc) as (Hs1 & Ha1 & Hb1). rewrite fromUTF8_unfold.
    destruct (getDescriptors E P this t w) as [[cdp|e|] w1] eqn:Hrun; cbn [snd] in *; [|done|done].
    destruct (getDescriptors_acquires E P this t w cdp w1 Hok Hv Hrun) as [Hok1 Ht1].
    destruct (reg_owned E this w1 Hok1 t u cdp (qa, qb) Hc Ht1 Hs1) as (H1 & H2 & _ & _).
    cbn [fst snd] in *.
    destruct (fromUTF8_loop_run E sizeof_charT fuel cdp.1 source None 0 target
                (iconv_reset E cdp.1 w1).2) as (evs & _ & (_ & Hs & _) & _).
    destruct (iconv_reset_same_sessions E cdp.1 w1) as (_ & Hs' & _).
    pose proof (fromUTF8_loop_frame E sizeof_charT fuel cdp.1 source None 0 target
                  (iconv_reset E cdp.1 w1).2) as Hfr.
    destruct (fromUTF8_loop E sizeof_charT fuel cdp.1 source None 0 target
                (iconv_reset E cdp.1 w1).2) as [[r|e|] w3]; cbn [snd emit specific descriptors] in *;
      rewrite Hs, Hs', !Hfr, !iconv_reset_frame by done; done.
  - destruct (specific w !! t) as [[a b]|] eqn:Ht.
    2: { unfold thread_exit, bind, pthread_getspecific. rewrite Ht. by cbn. }
    rewrite (thread_exit_registered E this t a b w Hok Ht). cbn.
    destruct (reg_owned E this w Hok t u (a, b) (qa, qb) Hc Ht Hu) as (? & ? & ? & ?).
    cbn [fst snd] in *.
    rewrite lookup_delete_ne, !lookup_delete_ne by done. done.
Qed.

End Threads.

(** ** Instances on the ISO-8859-1 engine *)

Lemma construction_leaves_no_session_witness :
  ∃ w',
    IconvStringConverter_new Latin1.engine Latin1.pthread_ok Latin1.code empty_world
      = (Ret Latin1.converter, w')
    ∧ descriptors w' = ∅
    ∧ specific w' = ∅
    ∧ new_events empty_world w'
        = [EvOpen Latin1.code externalCode 0; EvOpen externalCode Latin1.code 1;
           EvClose 0; EvClose 1].
Proof.
  apply (construction_leaves_no_session Latin1.engine Latin1.pthread_ok Latin1.code empty_world).
  - apply handles_fresh_empty.
  - reflexivity.
  - reflexivity.
  - reflexivity.
Defined.

Lemma construction_key_failure_witness :
  ∃ w',
    IconvStringConverter_new Latin1.engine Latin1.pthread_nokey Latin1.code empty_world
      = (Throw (ThreadSyscallException Errno.ENOMEM), w')
    ∧ descriptors w' = ∅
    ∧ specific w' = ∅
    ∧ new_events empty_world w'
        = [EvOpen Latin1.code externalCode 0; EvOpen externalCode Latin1.code 1;
           EvClose 0; EvClose 1].
Proof.
  apply (construction_key_failure Latin1.engine Latin1.pthread_nokey Latin1.code empty_world).
  - apply handles_fresh_empty.
  - reflexivity.
  - reflexivity.
  - discriminate.
Defined.

Lemma two_threads_ok : registry_ok Latin1.engine Latin1.converter Latin1.two_threads.
Proof.
  apply getDescriptors_preserves; [|apply latin1_validated].
  apply getDescriptors_preserves; [|apply latin1_validated].
  apply registry_ok_empty.
Qed.

Lemma destruction_closes_own_pair_only_witness :
  ∃ w',
    IconvStringConverter_delete Latin1.engine 7 Latin1.two_threads = (Ret tt, w')
    ∧ specific w' = ∅
    ∧ match specific Latin1.two_threads !! 7 with
      | Some (a, b) =>
          descriptors w' = delete b (delete a (descriptors Latin1.two_threads))
          ∧ new_events Latin1.two_threads w' = [EvClose a; EvClose b]
      | None => descriptors w' = descriptors Latin1.two_threads ∧ new_events Latin1.two_threads w' = []
      end
    ∧ ∀ u c d, u ≠ 7 → specific Latin1.two_threads !! u = Some (c, d) →
        is_open w' c Latin1.code externalCode
        ∧ is_open w' d externalCode Latin1.code
        ∧ stray w' c ∧ stray w' d.
Proof.
  apply (destruction_closes_own_pair_only Latin1.engine Latin1.converter 7 Latin1.two_threads).
  apply two_threads_ok.
Defined.

Lemma thread_exit_closes_pair_witness :
  ∃ w',
    thread_exit Latin1.engine 7 Latin1.two_threads = (Ret tt, w')
    ∧ specific w' = delete 7 (specific Latin1.two_threads)
    ∧ descriptors w' = delete 1%Z (delete 0%Z (descriptors Latin1.two_threads))
    ∧ new_events Latin1.two_threads w' = [EvClose 0; EvClose 1]
    ∧ registry_ok Latin1.engine Latin1.converter w'
    ∧ ∀ u c d, specific w' !! u = Some (c, d) →
        descriptors w' !! c = descriptors Latin1.two_threads !! c
        ∧ descriptors w' !! d = descriptors Latin1.two_threads !! d.
Proof.
  apply (thread_exit_closes_pair Latin1.engine Latin1.converter 7 0%Z 1%Z Latin1.two_threads).
  - apply two_threads_ok.
  - vm_compute. reflexivity.
Defined.

Lemma toUTF8_output_witness :
  let run := toUTF8 Latin1.engine Latin1.pthread_ok 1 10 Latin1.converter 7
                    [x41; xe9; xe9; xe9; xe9] [] empty_world in
  let D := decoded (new_events empty_world run.2) in
  9 = length D
  ∧ 9 ≤ length [x41; xc3; xa9; xc3; xa9; xc3; xa9; xc3; xa9]
  ∧ take 9 [x41; xc3; xa9; xc3; xa9; xc3; xa9; xc3; xa9] = D.
Proof.
  apply (toUTF8_output Latin1.engine Latin1.pthread_ok 1 10 Latin1.converter 7
           [x41; xe9; xe9; xe9; xe9] [] empty_world 9
           [x41; xc3; xa9; xc3; xa9; xc3; xa9; xc3; xa9]
           (toUTF8 Latin1.engine Latin1.pthread_ok 1 10 Latin1.converter 7
                   [x41; xe9; xe9; xe9; xe9] [] empty_world).2).
  - apply Latin1Facts.engine_is_bounded.
  - apply run_eq. vm_compute. reflexivity.
Defined.


Lemma conversions_reuse_session_witness :
  let to := (toUTF8 Latin1.engine Latin1.pthread_ok 1 10 Latin1.converter 7 [x41; xe9] []
                    Latin1.two_threads).2 in
  let from := (fromUTF8 Latin1.engine Latin1.pthread_ok 1 10 Latin1.converter 7 [x41; xe9] [x61]
                        Latin1.two_threads).2 in
  (same_sessions Latin1.two_threads to
   ∧ (∀ cd, cd ≠ 1%Z → descriptors to !! cd = descriptors Latin1.two_threads !! cd)
   ∧ ∃ evs, new_events Latin1.two_threads to = EvReset 1 :: evs ∧ loop_events evs = evs)
  ∧ (same_sessions Latin1.two_threads from
     ∧ (∀ cd, cd ≠ 0%Z → descriptors from !! cd = descriptors Latin1.two_threads !! cd)
     ∧ ∃ evs, new_events Latin1.two_threads from = EvReset 0 :: evs ∧ loop_events evs = evs).
Proof.
  apply (conversions_reuse_session Latin1.engine Latin1.pthread_ok 1 10 Latin1.converter 7
           0%Z 1%Z [x41; xe9] [] [x61] Latin1.two_threads).
  - apply two_threads_ok.
  - vm_compute. reflexivity.
Defined.



Lemma handles_fresh_foreign : handles_fresh Latin1.foreign.
Proof.
  split; [cbn; lia|]. intros cd [d Hd]. cbn in Hd.
  apply lookup_singleton_Some in Hd as [<- _]. cbn. lia.
Qed.

Lemma leftover_stray : stray Latin1.leftover 0.
Proof.
  split.
  - apply (bool_decide_unpack _). vm_compute. exact I.
  - apply (proj1 (map_Forall_lookup (λ (_ : nat) (p : Z * Z), 0%Z ≠ p.1 ∧ 0%Z ≠ p.2)
                    (specific Latin1.leftover))).
    apply (bool_decide_unpack _). vm_compute. exact I.
Qed.

Lemma no_stray_descriptor_witness :
  stray Latin1.leftover 0
  ∧ (0 < next_cd Latin1.foreign)%Z ∧ descriptors Latin1.leftover !! 0%Z = descriptors Latin1.foreign !! 0%Z.
Proof.
  split; [apply leftover_stray|].
  apply (no_stray_descriptor Latin1.engine Latin1.pthread_ok 1 Latin1.converter
           [CallToUTF8 10 7 [x41; xe9] []; CallGetDescriptors 8; CallThreadExit 7]
           Latin1.foreign
           (IconvStringConverter_new Latin1.engine Latin1.pthread_ok Latin1.code Latin1.foreign).2).
  - apply handles_fresh_foreign.
  - intros n. reflexivity.
  - apply run_eq. vm_compute. reflexivity.
  - apply leftover_stray.
Defined.

Lemma threads_do_not_interfere_witness :
  let w := run_call Latin1.engine Latin1.pthread_ok 1 Latin1.converter
             (CallGetDescriptors 8)
             (IconvStringConverter_new Latin1.engine Latin1.pthread_ok Latin1.code
                                       empty_world).2 in
  let w' := run_call Latin1.engine Latin1.pthread_ok 1 Latin1.converter
              (CallToUTF8 10 7 [x41; xe9] []) w in
  specific w' !! 8 = Some (2%Z, 3%Z)
  ∧ descriptors w' !! 2%Z = descriptors w !! 2%Z
  ∧ descriptors w' !! 3%Z = descriptors w !! 3%Z.
Proof.
  intros w.
  apply (threads_do_not_interfere Latin1.engine Latin1.pthread_ok 1 Latin1.converter w
           (CallToUTF8 10 7 [x41; xe9] []) 8 (2%Z, 3%Z)).
  - apply reachable_call.
    apply (reachable_new Latin1.engine Latin1.pthread_ok 1 Latin1.converter empty_world).
    + apply handles_fresh_empty.
    + apply run_eq. vm_compute. reflexivity.
  - cbn. lia.
  - vm_compute. reflexivity.
Defined.

(** ** The engine that needs more room meets the assumptions *)

Module WideFacts.
Import Wide.

Lemma expand_bounded inbuf : ∀ n,
  consumed (expand inbuf n) ≤ length inbuf ∧ length (produced (expand inbuf n)) ≤ n.
Proof.
  induction inbuf as [|b rest IH]; intros n; cbn; [lia|].
  destruct (decide (5 ≤ n)); cbn; [|lia].
  destruct (IH (n - 5)). lia.
Qed.



Lemma wide_is_bounded : engine_bounded engine.
Proof. intros tocode fromcode s inbuf n. apply expand_bounded. Qed.





Lemma wide_validated : validated engine converter.
Proof. split; reflexivity. Qed.



End WideFacts.

(** [toUTF8] with the engine that turns one byte into five: a window of
    [max(1, 4)] bytes is offered again and again. *)
Example toUTF8_same_window :
  loop_events
    (new_events empty_world
       (toUTF8 Wide.engine Latin1.pthread_ok 1 3 Wide.converter 7 [x41] [] empty_world).2)
  = [EvGetMoreBytes 4 None 0; EvIconv 1 [x41] 0 4 0 [] (IconvFail Errno.E2BIG);
     EvGetMoreBytes 4 (Some 0) 0; EvIconv 1 [x41] 0 4 0 [] (IconvFail Errno.E2BIG);
     EvGetMoreBytes 4 (Some 0) 0; EvIconv 1 [x41] 0 4 0 [] (IconvFail Errno.E2BIG)].
Proof. vm_compute. reflexivity. Qed.

(** [fromUTF8] with the same engine: the budget of the second iteration is
    what the first left plus the new increment, and there the byte fits. *)
Example fromUTF8_two_growths :
  loop_events
    (new_events empty_world
       (fromUTF8 Wide.engine Latin1.pthread_ok 1 3 Wide.converter 7 [x41] [x61] empty_world).2)
  = [EvResize 5; EvIconv 0 [x41] 0 4 0 [] (IconvFail Errno.E2BIG);
     EvResize 9; EvIconv 0 [x41] 0 8 1 [x41; x41; x41; x41; x41] (IconvCount 0);
     EvResize 6].
Proof. vm_compute. reflexivity. Qed.


Lemma toUTF8_requests_witness :
  let run := toUTF8 Latin1.engine Latin1.pthread_ok 1 10 Latin1.converter 7
                    [x41; xe9; xe9; xe9; xe9] [] empty_world in
  let inbuf := take (length [x41; xe9; xe9; xe9; xe9] / 1 * 1) [x41; xe9; xe9; xe9; xe9] in
  match (getDescriptors Latin1.engine Latin1.pthread_ok Latin1.converter 7 empty_world).1 with
  | Ret cdp =>
      retry_run Latin1.engine externalCode Latin1.code cdp.2 10 tt inbuf None
                (loop_events (new_events empty_world run.2)) run.1
  | _ => loop_events (new_events empty_world run.2) = []
  end
  ∧ ∀ howMany firstUnused granted,
      EvGetMoreBytes howMany firstUnused granted ∈ new_events empty_world run.2 → 4 ≤ howMany.
Proof.
  apply (toUTF8_requests Latin1.engine Latin1.pthread_ok 1 10 Latin1.converter 7
           [x41; xe9; xe9; xe9; xe9] [] empty_world).
  - apply registry_ok_empty.
  - apply latin1_validated.
Defined.

Lemma engine_failures_surface_witness :
  ends_as Latin1.engine externalCode Latin1.code toUTF8_window 10 tt
          (take (length [x41; xe9; xe9; xe9; xe9] / 1 * 1) [x41; xe9; xe9; xe9; xe9]) 0
          (ending (toUTF8 Latin1.engine Latin1.pthread_ok 1 10 Latin1.converter 7
                          [x41; xe9; xe9; xe9; xe9] [] empty_world).1)
  ∧ ends_as Latin1.engine Latin1.code externalCode (fromUTF8_window 1) 10 tt
            [x41; xe9; xe9; xe9; xe9] 0
            (ending (fromUTF8 Latin1.engine Latin1.pthread_ok 1 10 Latin1.converter 7
                              [x41; xe9; xe9; xe9; xe9] [] empty_world).1).
Proof.
  apply (engine_failures_surface Latin1.engine Latin1.pthread_ok 1 10 Latin1.converter 7
           [x41; xe9; xe9; xe9; xe9] [] [] empty_world (0%Z, 1%Z)
           (getDescriptors Latin1.engine Latin1.pthread_ok Latin1.converter 7 empty_world).2).
  - apply registry_ok_empty.
  - apply latin1_validated.
  - reflexivity.
Defined.

(** What the witness input does: [toUTF8] converts it in two rounds,
    [fromUTF8] stops at its second byte, which starts no UTF-8 sequence. *)
Example mixed_input_endings :
  ending (toUTF8 Latin1.engine Latin1.pthread_ok 1 10 Latin1.converter 7
                 [x41; xe9; xe9; xe9; xe9] [] empty_world).1 = Ret tt
  ∧ ending (fromUTF8 Latin1.engine Latin1.pthread_ok 1 10 Latin1.converter 7
                     [x41; xe9; xe9; xe9; xe9] [] empty_world).1
    = Throw (IllegalConversionException "Invalid or incomplete multibyte or wide character").
Proof. split; vm_compute; reflexivity. Qed.


(** What the engine answers in the witness: one shortfall before [toUTF8]
    returns, five of them before [fromUTF8] does. *)
Example both_directions_retry :
  statuses (new_events empty_world
              (toUTF8 Wide.decoder Latin1.pthread_ok 1 40 Wide.converter 7
                      [x41; xe9; xe9; xe9; xe9] [] empty_world).2)
    = [IconvFail Errno.E2BIG; IconvCount 0]
  ∧ statuses (new_events empty_world
                (fromUTF8 Wide.decoder Latin1.pthread_ok 1 40 Wide.converter 7
                          [x41; xe9; xe9; xe9; xe9] [] empty_world).2)
    = replicate 5 (IconvFail Errno.E2BIG) ++ [IconvCount 0].
Proof. split; vm_compute; reflexivity. Qed.

Lemma fromUTF8_growth_witness :
  let run := fromUTF8 Wide.engine Latin1.pthread_ok 1 10 Wide.converter 7 [x41] [x61]
                      empty_world in
  match (getDescriptors Wide.engine Latin1.pthread_ok Wide.converter 7 empty_world).1 with
  | Ret cdp =>
      ∃ evs res,
        growth_run Wide.engine 1 Wide.code externalCode cdp.1 10 tt [x41] 0 0 1 evs res
        ∧ match res with
          | Ret (total, unspent) =>
              loop_events (new_events empty_world run.2) = evs ++ [EvResize (total - unspent / 1)]
              ∧ ∃ target', run.1 = Ret target' ∧ size 1 target' = total - unspent / 1
          | Throw e => loop_events (new_events empty_world run.2) = evs ∧ run.1 = Throw e
          | OutOfFuel => loop_events (new_events empty_world run.2) = evs ∧ run.1 = OutOfFuel
          end
  | _ => loop_events (new_events empty_world run.2) = []
  end.
Proof.
  apply (fromUTF8_growth Wide.engine Latin1.pthread_ok 1 10 Wide.converter 7 [x41] [x61] 1
           empty_world).
  - apply registry_ok_empty.
  - apply WideFacts.wide_validated.
  - apply WideFacts.wide_is_bounded.
  - lia.
  - reflexivity.
Defined.
